(** * xiprd: a RAM-backed block driver -- shallow embedding and properties

    The development follows [xiprd.c]: the module parameters and constants,
    the device structure, the bio handler [xiprd_make_request], the geometry
    callback [xiprd_getgeo] and the module initialisation [xiprd_init] with
    its [err_out] cleanup.

    Kernel memory is a flat byte-addressed space; the RAM disk is the region
    [ramdisk, ramdisk + size) of it and the pages of a bio are other addresses
    of the same space, so that an unchecked [memcpy] lands wherever its
    pointer arithmetic leads.  Calls into the block layer and the allocator
    are recorded as a trace of events, their results being supplied by a
    [host] record. *)

From Stdlib Require Import ZArith List Lia Bool String.
From Stdlib Require Import Strings.Byte.
Import ListNotations.
Local Open Scope Z_scope.

(** ** Machine integers *)

Module CInt.

(** An unsigned [w]-bit value: the low [w] bits. *)
Definition wrap (w x : Z) : Z := x mod 2 ^ w.

Definition u8 : Z -> Z := wrap 8.
Definition u16 : Z -> Z := wrap 16.
Definition u64 : Z -> Z := wrap 64.

(** [loff_t] is a signed 64-bit integer (two's complement; the kernel is
    built with wrapping signed arithmetic). *)
Definition s64 (x : Z) : Z :=
  let y := u64 x in if y <? 2 ^ 63 then y else y - 2 ^ 64.

(** [x << n] and [x >> n] on a 64-bit unsigned operand. *)
Definition shl64 (x n : Z) : Z := u64 (Z.shiftl x n).
Definition shr64 (x n : Z) : Z := Z.shiftr (u64 x) n.

End CInt.

(** ** Constants and module parameters *)

Definition BD_NAME_MAX : Z := 32.
Definition DRV_NAME : string := "xiprd".
Definition NUM_MINORS : Z := 16.
Definition SECTOR_SHIFT : Z := 9.
Definition SECTOR_SIZE : Z := Z.shiftl 1 SECTOR_SHIFT.
Definition KERNEL_SHIFT : Z := 9.
Definition ENOMEM : Z := 12.

(** Defaults of the two module parameters, [int sector_size] and
    [u_long num_sectors]. *)
Definition sector_size_default : Z := SECTOR_SIZE.
Definition num_sectors_default : Z :=
  Z.shiftr (1024 * 1024 * 1024) SECTOR_SHIFT.

(** ** Memory *)

Definition mem : Type := Z -> byte.

(** [memcpy m dst src n]: memory after copying [n] bytes from [src] to
    [dst]; every byte read is the byte of [m]. *)
Definition memcpy (m : mem) (dst src : Z) (n : N) : mem :=
  fun a =>
    if (dst <=? a) && (a <? dst + Z.of_N n) then m (src + (a - dst)) else m a.

(** The [n] bytes at address [a]. *)
Fixpoint load (m : mem) (a : Z) (n : nat) : list byte :=
  match n with
  | O => []
  | S k => m a :: load m (a + 1) k
  end.

(** ** Block layer data *)

Inductive data_dir : Type := READ | WRITE.

(** A segment, [struct bio_vec] of the kernel headers: the page
    (identified with the address at which [kmap_atomic] maps it), the byte
    count, and the offset of the segment's data within the page.  The data
    of a segment are the [bv_len] bytes at [bv_page + bv_offset]. *)
Record bio_vec : Type := mk_bio_vec {
  bv_page : Z;
  bv_len : N;
  bv_offset : N
}.

Record bio : Type := mk_bio {
  bi_sector : Z;
  bi_rw : data_dir;
  bi_io_vec : list bio_vec
}.

Definition bio_data_dir (bi : bio) : data_dir := bi_rw bi.
Definition kmap_atomic (page : Z) : Z := page.

Record gendisk : Type := mk_gendisk {
  disk_name : string;
  gd_major : Z;
  first_minor : Z;
  minors : Z;
  gd_queue : Z;          (* request queue pointer, 0 when NULL *)
  gd_capacity : Z        (* in 512-byte kernel sectors *)
}.

Definition get_capacity (gd : gendisk) : Z := gd_capacity gd.

Definition set_capacity (gd : gendisk) (sectors : Z) : gendisk :=
  mk_gendisk (disk_name gd) (gd_major gd) (first_minor gd) (minors gd)
             (gd_queue gd) sectors.

(** [struct hd_geometry] comes from the kernel headers: [heads] and
    [sectors] are [unsigned char], [cylinders] is [unsigned short]; a store
    to a field keeps the low bits of the value. *)
Record hd_geometry : Type := mk_geo {
  heads : Z;
  sectors : Z;
  cylinders : Z
}.

(** ** The device *)

Record xiprd_dev : Type := mk_dev {
  major : Z;
  name : string;
  lock : bool;             (* spin lock initialised *)
  disk : option gendisk;   (* None when the pointer is NULL *)
  size : Z;                (* u64, bytes *)
  queue : Z;
  ramdisk : Z              (* base address, 0 when NULL *)
}.

(** ** xiprd_make_request *)

(** One [memcpy] issued by the handler. *)
Record copy_op : Type := mk_copy {
  cp_dir : data_dir;
  cp_offset : Z;           (* byte offset into the RAM disk *)
  cp_buf : Z;
  cp_len : N
}.

Record seg_state : Type := mk_seg_state {
  ss_offset : Z;           (* loff_t offset *)
  ss_mem : mem;
  ss_copies : list copy_op
}.

(** Body of the [bio_for_each_segment] loop. *)
Definition segment_step (dir : data_dir) (base : Z)
           (st : seg_state) (bvec : bio_vec) : seg_state :=
  let offset := ss_offset st in
  let dest := base + offset in
  let buf := kmap_atomic (bv_page bvec) in
  let m' :=
    match dir with
    | WRITE => memcpy (ss_mem st) dest buf (bv_len bvec)
    | READ => memcpy (ss_mem st) buf dest (bv_len bvec)
    end in
  mk_seg_state (CInt.s64 (offset + Z.of_N (bv_len bvec)))
               m'
               (ss_copies st ++ [mk_copy dir offset buf (bv_len bvec)]).

Definition bio_for_each_segment (dir : data_dir) (base : Z)
           (segs : list bio_vec) (st : seg_state) : seg_state :=
  fold_left (segment_step dir base) segs st.

(** The byte offset computed from the kernel sector of the bio. *)
Definition bio_offset (bi : bio) : Z :=
  CInt.s64 (CInt.shl64 (bi_sector bi) KERNEL_SHIFT).

Record completion : Type := mk_completion {
  mr_ret : Z;              (* value returned to the block layer *)
  mr_endio : Z;            (* error code handed to bio_endio *)
  mr_mem : mem;
  mr_copies : list copy_op
}.

(** The handler.  The spin lock is taken before the loop and dropped after
    it; in this sequential model that leaves memory as it is. *)
Definition xiprd_make_request (dev : xiprd_dev) (bi : bio) (m : mem)
  : completion :=
  let offset := bio_offset bi in
  let st := bio_for_each_segment (bio_data_dir bi) (ramdisk dev)
              (bi_io_vec bi) (mk_seg_state offset m []) in
  mk_completion 0 0 (ss_mem st) (ss_copies st).

(** Sum of the segment lengths of a request. *)
Definition segs_len (segs : list bio_vec) : Z :=
  fold_right (fun bv acc => Z.of_N (bv_len bv) + acc) 0 segs.

Definition bio_len (bi : bio) : Z := segs_len (bi_io_vec bi).

(** The address of the data of a segment. *)
Definition seg_buf (bv : bio_vec) : Z :=
  kmap_atomic (bv_page bv) + Z.of_N (bv_offset bv).

(** The data of the segments, in segment order. *)
Definition segs_data (m : mem) (segs : list bio_vec) : list byte :=
  flat_map (fun bv => load m (seg_buf bv) (N.to_nat (bv_len bv))) segs.

(** The first [bv_len] bytes of the page of each segment, in segment
    order: the bytes the handler addresses, which are the data of a
    segment when its [bv_offset] is 0. *)
Definition pages_head (m : mem) (segs : list bio_vec) : list byte :=
  flat_map (fun bv => load m (kmap_atomic (bv_page bv)) (N.to_nat (bv_len bv)))
           segs.

(** A segment's data lie outside the address range [lo, hi). *)
Definition data_outside (lo hi : Z) (bv : bio_vec) : Prop :=
  seg_buf bv + Z.of_N (bv_len bv) <= lo \/ hi <= seg_buf bv.

(** The copies the loop issues for [segs] when entered at [offset]. *)
Fixpoint segment_copies (dir : data_dir) (offset : Z) (segs : list bio_vec)
  : list copy_op :=
  match segs with
  | [] => []
  | bvec :: rest =>
      mk_copy dir offset (kmap_atomic (bv_page bvec)) (bv_len bvec)
      :: segment_copies dir (CInt.s64 (offset + Z.of_N (bv_len bvec))) rest
  end.

(** The bytes of a segment's page that the handler addresses, from the
    start of the page for [bv_len] bytes, lie outside the address range
    [lo, hi). *)
Definition buf_outside (lo hi : Z) (bv : bio_vec) : Prop :=
  kmap_atomic (bv_page bv) + Z.of_N (bv_len bv) <= lo \/
  hi <= kmap_atomic (bv_page bv).

(** The addressed bytes of two segments do not overlap. *)
Definition bufs_apart (b1 b2 : bio_vec) : Prop :=
  buf_outside (kmap_atomic (bv_page b1))
              (kmap_atomic (bv_page b1) + Z.of_N (bv_len b1)) b2.

Fixpoint pairwise_apart (segs : list bio_vec) : Prop :=
  match segs with
  | [] => True
  | bv :: rest => Forall (bufs_apart bv) rest /\ pairwise_apart rest
  end.

(** The content of the RAM disk: [size] bytes from [ramdisk]. *)
Definition store_bytes (dev : xiprd_dev) (m : mem) : list byte :=
  load m (ramdisk dev) (Z.to_nat (size dev)).

(** ** xiprd_getgeo *)

Definition xiprd_getgeo (gd : gendisk) : Z * hd_geometry :=
  (0, mk_geo (CInt.u8 (Z.shiftl 1 6))
             (CInt.u8 (Z.shiftl 1 5))
             (CInt.u16 (CInt.shr64 (get_capacity gd) 11))).

(** The offset of the first copy of a completed request, if any. *)
Definition first_copy_offset (c : completion) : option Z :=
  option_map cp_offset (hd_error (mr_copies c)).

(** Sectors addressed by a geometry. *)
Definition chs_sectors (g : hd_geometry) : Z :=
  heads g * sectors g * cylinders g.

(** ** The host: allocator and block layer *)

(** Results of the calls whose outcome the driver tests. *)
Record host : Type := mk_host {
  vmalloc : Z -> Z;                    (* base address, 0 when NULL *)
  register_blkdev : Z -> string -> Z;  (* negative errno, else the major *)
  alloc_disk : Z -> bool;              (* false when NULL *)
  blk_alloc_queue : Z                  (* queue pointer, 0 when NULL *)
}.

Inductive event : Type :=
| EvVmalloc (bytes ptr : Z)
| EvRegisterBlkdev (maj : Z) (nm : string) (rc : Z)
| EvAllocDisk (nminors : Z) (ok : bool)
| EvBlkAllocQueue (q : Z)
| EvBlkQueueMakeRequest (q : Z)
| EvBlkQueueLogicalBlockSize (q bytes : Z)
| EvSetCapacity (nsectors : Z)
| EvSpinLockInit
| EvAddDisk
| EvVfree (ptr : Z)
| EvDelGendisk
| EvPutDisk
| EvBlkCleanupQueue (q : Z)
| EvUnregisterBlkdev (maj : Z) (nm : string).

(** ** xiprd_init *)

Record init_result : Type := mk_init_result {
  ir_rc : Z;
  ir_dev : xiprd_dev;
  ir_trace : list event
}.

(** The [err_out] label. *)
Definition err_out (dev : xiprd_dev) (rc : Z) (tr : list event)
  : init_result :=
  let tr1 :=
    if ramdisk dev =? 0 then tr else tr ++ [EvVfree (ramdisk dev)] in
  let tr2 :=
    match disk dev with
    | Some gd =>
        tr1 ++ [EvDelGendisk; EvPutDisk; EvBlkCleanupQueue (gd_queue gd);
                EvUnregisterBlkdev (major dev) (name dev)]
    | None => tr1
    end in
  mk_init_result rc dev tr2.

(** The byte size of the RAM disk: [(u64)num_sectors * (u64)sector_size]. *)
Definition ramdisk_bytes (sector_size num_sectors : Z) : Z :=
  CInt.u64 (CInt.u64 num_sectors * CInt.u64 sector_size).

Definition xiprd_init (h : host) (sector_size num_sectors : Z)
  : init_result :=
  (* memset, strncpy *)
  let dev := mk_dev 0 DRV_NAME false None 0 0 0 in
  (* allocate the main RAM disk *)
  let sz := ramdisk_bytes sector_size num_sectors in
  let p := vmalloc h sz in
  let dev := mk_dev (major dev) (name dev) (lock dev) (disk dev) sz
                    (queue dev) p in
  let tr := [EvVmalloc sz p] in
  if p =? 0 then err_out dev (- ENOMEM) tr
  else
    (* register the block device, allocate and init a disk *)
    let rc := register_blkdev h 0 (name dev) in
    let tr := tr ++ [EvRegisterBlkdev 0 (name dev) rc] in
    if rc <? 0 then err_out dev rc tr
    else
      let ok := alloc_disk h NUM_MINORS in
      let tr := tr ++ [EvAllocDisk NUM_MINORS ok] in
      if negb ok then err_out dev (- ENOMEM) tr
      else
        let gd := mk_gendisk (name dev ++ "0") (major dev) (0 * NUM_MINORS)
                             NUM_MINORS 0 0 in
        (* we don't need a block queue, directly handle bios *)
        let q := blk_alloc_queue h in
        let gd := mk_gendisk (disk_name gd) (gd_major gd) (first_minor gd)
                             (minors gd) q (gd_capacity gd) in
        let dev := mk_dev (major dev) (name dev) (lock dev) (Some gd)
                          (size dev) (queue dev) (ramdisk dev) in
        let tr := tr ++ [EvBlkAllocQueue q] in
        if q =? 0 then err_out dev (- ENOMEM) tr
        else
          let kernel_sectors :=
            CInt.shr64 (ramdisk_bytes sector_size num_sectors) KERNEL_SHIFT in
          let gd := set_capacity gd kernel_sectors in
          let dev := mk_dev (major dev) (name dev) true (Some gd)
                            (size dev) (queue dev) (ramdisk dev) in
          mk_init_result 0 dev
            (tr ++ [EvBlkQueueMakeRequest q;
                    EvBlkQueueLogicalBlockSize q sector_size;
                    EvSetCapacity kernel_sectors;
                    EvSpinLockInit;
                    EvAddDisk]).

(** ** xiprd_exit *)

(** The calls of module exit on the device as it stands. *)
Definition xiprd_exit (dev : xiprd_dev) : list event :=
  let tr1 := if ramdisk dev =? 0 then [] else [EvVfree (ramdisk dev)] in
  match disk dev with
  | Some gd =>
      tr1 ++ [EvDelGendisk; EvPutDisk; EvBlkCleanupQueue (gd_queue gd);
              EvUnregisterBlkdev (major dev) (name dev)]
  | None => tr1
  end.

(** ** Resource accounting over a trace *)

Inductive resource : Type :=
| RStore (ptr : Z)
| RDriver (maj : Z)
| RDisk
| RQueue (q : Z)
| RPublished.

Definition resource_eqb (a b : resource) : bool :=
  match a, b with
  | RStore p, RStore p' => p =? p'
  | RDriver j, RDriver j' => j =? j'
  | RDisk, RDisk => true
  | RQueue q, RQueue q' => q =? q'
  | RPublished, RPublished => true
  | _, _ => false
  end.

Fixpoint remove_first (r : resource) (l : list resource) : list resource :=
  match l with
  | [] => []
  | x :: rest => if resource_eqb r x then rest else x :: remove_first r rest
  end.

(** [held]: acquired and not yet released, most recent first.
    [stray]: releases of something that was not held, in order. *)
Record ledger : Type := mk_ledger {
  held : list resource;
  stray : list resource
}.

Definition acquire (r : resource) (l : ledger) : ledger :=
  mk_ledger (r :: held l) (stray l).

Definition release (r : resource) (l : ledger) : ledger :=
  if existsb (resource_eqb r) (held l)
  then mk_ledger (remove_first r (held l)) (stray l)
  else mk_ledger (held l) (stray l ++ [r]).

(** A registration asked with major 0 is held under the major the host
    returned. *)
Definition account (l : ledger) (e : event) : ledger :=
  match e with
  | EvVmalloc _ p => if p =? 0 then l else acquire (RStore p) l
  | EvRegisterBlkdev maj _ rc =>
      if rc <? 0 then l
      else acquire (RDriver (if maj =? 0 then rc else maj)) l
  | EvAllocDisk _ ok => if ok then acquire RDisk l else l
  | EvBlkAllocQueue q => if q =? 0 then l else acquire (RQueue q) l
  | EvAddDisk => acquire RPublished l
  | EvVfree p => release (RStore p) l
  | EvDelGendisk => release RPublished l
  | EvPutDisk => release RDisk l
  | EvBlkCleanupQueue q => release (RQueue q) l
  | EvUnregisterBlkdev maj _ => release (RDriver maj) l
  | EvBlkQueueMakeRequest _ | EvBlkQueueLogicalBlockSize _ _
  | EvSetCapacity _ | EvSpinLockInit => l
  end.

Definition audit (tr : list event) : ledger :=
  fold_left account tr (mk_ledger [] []).

Definition outstanding (tr : list event) : list resource := held (audit tr).

(** Whether a trace contains a store allocation attempt. *)
Definition is_vmalloc (e : event) : bool :=
  match e with EvVmalloc _ _ => true | _ => false end.

(** The events that give a resource back. *)
Definition is_release (e : event) : bool :=
  match e with
  | EvVfree _ | EvDelGendisk | EvPutDisk | EvBlkCleanupQueue _
  | EvUnregisterBlkdev _ _ => true
  | _ => false
  end.

(** The geometry reported for the disk of a device. *)
Definition disk_geometry (dev : xiprd_dev) : option hd_geometry :=
  option_map (fun gd => snd (xiprd_getgeo gd)) (disk dev).

(** ** Sample hosts and memories *)

(** A host on which every step succeeds. *)
Definition host_ok : host :=
  mk_host (fun _ => 1048576) (fun _ _ => 254) (fun _ => true) 4096.

(** The same host with one step failing. *)
Definition host_no_store : host :=
  mk_host (fun _ => 0) (fun _ _ => 254) (fun _ => true) 4096.
Definition host_no_driver : host :=
  mk_host (fun _ => 1048576) (fun _ _ => -16) (fun _ => true) 4096.
Definition host_no_disk : host :=
  mk_host (fun _ => 1048576) (fun _ _ => 254) (fun _ => false) 4096.
Definition host_no_queue : host :=
  mk_host (fun _ => 1048576) (fun _ _ => 254) (fun _ => true) 0.

(** The 1 MiB device of the first scenario and a two-sector device. *)
Definition dev_1MiB : xiprd_dev := ir_dev (xiprd_init host_ok 512 2048).
Definition dev_1KiB : xiprd_dev := ir_dev (xiprd_init host_ok 512 2).

(** A memory whose page at address 8192 is filled with 0xAB, zero
    elsewhere. *)
Definition mem_ab : mem :=
  fun a => if (8192 <=? a) && (a <? 12288) then xab else x00.

Definition bio_write_sector0 : bio := mk_bio 0 WRITE [mk_bio_vec 8192 512 0].
Definition bio_read_sector0 : bio := mk_bio 0 READ [mk_bio_vec 12288 512 0].

(** A write of 1024 bytes at sector 1. *)
Definition bio_write_sector1 : bio := mk_bio 1 WRITE [mk_bio_vec 8192 1024 0].

(** The 8 MiB device of the two-segment scenario, a memory holding
    pattern A (0xAB) in the page at 8192 and pattern B (0xCD) in the page
    at 12288, a write of both pages at sector 0 and a read of the same
    range into the pages at 16384 and 20480. *)
Definition dev_8MiB : xiprd_dev := ir_dev (xiprd_init host_ok 512 16384).

Definition mem_ab_cd : mem :=
  fun a =>
    if (8192 <=? a) && (a <? 12288) then xab
    else if (12288 <=? a) && (a <? 16384) then xcd
    else x00.

Definition bio_write_two_segments : bio :=
  mk_bio 0 WRITE [mk_bio_vec 8192 4096 0; mk_bio_vec 12288 4096 0].
Definition bio_read_two_segments : bio :=
  mk_bio 0 READ [mk_bio_vec 16384 4096 0; mk_bio_vec 20480 4096 0].

(** A device configured with 4096-byte sectors, and a 64 GiB device. *)
Definition dev_4K : xiprd_dev := ir_dev (xiprd_init host_ok 4096 256).
Definition dev_64GiB : xiprd_dev := ir_dev (xiprd_init host_ok 512 (2 ^ 27)).

(** A write of 512 bytes at sector 1. *)
Definition bio_write_512_sector1 : bio :=
  mk_bio 1 WRITE [mk_bio_vec 8192 512 0].

(** A disk of 2^27 kernel sectors. *)
Definition gd_64GiB : gendisk := mk_gendisk "xiprd0" 0 0 16 4096 (2 ^ 27).

(** A read of 1024 bytes at sector 1. *)
Definition bio_read_sector1 : bio := mk_bio 1 READ [mk_bio_vec 8192 1024 0].

(** A disk of 2^27 + 4096 kernel sectors and one of 4096. *)
Definition gd_big : gendisk := mk_gendisk "xiprd0" 0 0 16 4096 (2 ^ 27 + 4096).
Definition gd_2MiB : gendisk := mk_gendisk "xiprd0" 0 0 16 4096 4096.

(** A memory whose page at 8192 holds 0xAB in its bytes 512..1023 and
    zero elsewhere, a write of those 512 bytes at sector 0, and a read of
    sector 0 into bytes 512..1023 of the page at 12288. *)
Definition mem_ab_512 : mem :=
  fun a => if (8704 <=? a) && (a <? 9216) then xab else x00.

Definition bio_write_offset512 : bio :=
  mk_bio 0 WRITE [mk_bio_vec 8192 512 512].
Definition bio_read_offset512 : bio :=
  mk_bio 0 READ [mk_bio_vec 12288 512 512].

(** A write of one 4096-byte block at kernel sector 8. *)
Definition bio_write_4096_sector8 : bio :=
  mk_bio 8 WRITE [mk_bio_vec 8192 4096 0].

(** * Properties *)

(** ** Machine arithmetic *)

Lemma pow2_63 : 2 ^ 63 = 9223372036854775808.
Proof. reflexivity. Qed.

Lemma pow2_64 : 2 ^ 64 = 18446744073709551616.
Proof. reflexivity. Qed.

Lemma u64_range (x : Z) : 0 <= CInt.u64 x < 2 ^ 64.
Proof. unfold CInt.u64, CInt.wrap. apply Z.mod_pos_bound. reflexivity. Qed.

Lemma u64_small (x : Z) : 0 <= x < 2 ^ 64 -> CInt.u64 x = x.
Proof. intros H. unfold CInt.u64, CInt.wrap. now apply Z.mod_small. Qed.

Lemma s64_range (x : Z) : - 2 ^ 63 <= CInt.s64 x < 2 ^ 63.
Proof.
  unfold CInt.s64. pose proof (u64_range x) as H.
  rewrite pow2_63, pow2_64 in *.
  destruct (Z.ltb_spec (CInt.u64 x) 9223372036854775808); lia.
Qed.

Lemma s64_small (x : Z) : - 2 ^ 63 <= x < 2 ^ 63 -> CInt.s64 x = x.
Proof.
  intros H. unfold CInt.s64, CInt.u64, CInt.wrap.
  rewrite pow2_63, pow2_64 in *.
  destruct (Z_lt_le_dec x 0) as [Hneg | Hpos].
  - replace (x mod 18446744073709551616) with (x + 18446744073709551616).
    + destruct (Z.ltb_spec (x + 18446744073709551616) 9223372036854775808);
        lia.
    + apply (Z.mod_unique _ _ (-1)); lia.
  - rewrite Z.mod_small by lia.
    destruct (Z.ltb_spec x 9223372036854775808); lia.
Qed.

Lemma s64_congr (x y : Z) : CInt.u64 x = CInt.u64 y -> CInt.s64 x = CInt.s64 y.
Proof. intros H. unfold CInt.s64. now rewrite H. Qed.

Lemma u64_s64 (x : Z) : CInt.u64 (CInt.s64 x) = CInt.u64 x.
Proof.
  unfold CInt.s64. destruct (CInt.u64 x <? 2 ^ 63).
  - unfold CInt.u64, CInt.wrap. apply Z.mod_mod. discriminate.
  - unfold CInt.u64, CInt.wrap.
    replace (x mod 2 ^ 64 - 2 ^ 64) with (x mod 2 ^ 64 + (-1) * 2 ^ 64) by lia.
    rewrite Z.mod_add by discriminate. apply Z.mod_mod. discriminate.
Qed.

Lemma s64_add_l (x y : Z) : CInt.s64 (CInt.s64 x + y) = CInt.s64 (x + y).
Proof.
  apply s64_congr. unfold CInt.u64, CInt.wrap.
  rewrite <- (Zplus_mod_idemp_l (CInt.s64 x)).
  change (CInt.s64 x mod 2 ^ 64) with (CInt.u64 (CInt.s64 x)).
  rewrite u64_s64. unfold CInt.u64, CInt.wrap.
  apply Zplus_mod_idemp_l.
Qed.

Lemma s64_idem (x : Z) : CInt.s64 (CInt.s64 x) = CInt.s64 x.
Proof. apply s64_small, s64_range. Qed.

Lemma shl64_sector (s : Z) :
  0 <= s < 2 ^ 55 -> CInt.shl64 s KERNEL_SHIFT = s * 512.
Proof.
  intros H. unfold CInt.shl64, KERNEL_SHIFT.
  rewrite Z.shiftl_mul_pow2 by lia. change (2 ^ 9) with 512.
  apply u64_small. change (2 ^ 55) with 36028797018963968 in H.
  rewrite pow2_64. lia.
Qed.

Lemma bio_offset_sector (bi : bio) :
  0 <= bi_sector bi < 2 ^ 54 -> bio_offset bi = bi_sector bi * 512.
Proof.
  intros H. unfold bio_offset.
  change (2 ^ 54) with 18014398509481984 in H.
  rewrite shl64_sector by (change (2 ^ 55) with 36028797018963968; lia).
  apply s64_small. rewrite pow2_63. lia.
Qed.

Lemma s64_high (x : Z) : 2 ^ 63 <= x < 2 ^ 64 -> CInt.s64 x = x - 2 ^ 64.
Proof.
  intros H. unfold CInt.s64. rewrite u64_small by lia.
  rewrite pow2_63, pow2_64 in *.
  destruct (Z.ltb_spec x 9223372036854775808); lia.
Qed.

(** ** Memory *)

Lemma memcpy_outside (m : mem) (dst src : Z) (n : N) (a : Z) :
  ~ (dst <= a < dst + Z.of_N n) -> memcpy m dst src n a = m a.
Proof.
  intros H. unfold memcpy.
  destruct (Z.leb_spec dst a), (Z.ltb_spec a (dst + Z.of_N n));
    simpl; trivial; lia.
Qed.

Lemma memcpy_inside (m : mem) (dst src : Z) (n : N) (a : Z) :
  dst <= a < dst + Z.of_N n -> memcpy m dst src n a = m (src + (a - dst)).
Proof.
  intros H. unfold memcpy.
  destruct (Z.leb_spec dst a), (Z.ltb_spec a (dst + Z.of_N n));
    simpl; trivial; lia.
Qed.

Lemma memcpy_zero (m : mem) (dst src a : Z) : memcpy m dst src 0 a = m a.
Proof. apply memcpy_outside. lia. Qed.

Lemma load_length (m : mem) (n : nat) : forall a, List.length (load m a n) = n.
Proof. induction n as [| k IH]; intros a; simpl; [ | rewrite IH ]; trivial. Qed.

Lemma load_ext (m m' : mem) (n : nat) : forall a,
  (forall i, 0 <= i < Z.of_nat n -> m (a + i) = m' (a + i)) ->
  load m a n = load m' a n.
Proof.
  induction n as [| k IH]; intros a H; simpl; trivial.
  f_equal.
  - specialize (H 0). rewrite Z.add_0_r in H. apply H. lia.
  - apply IH. intros i Hi.
    replace (a + 1 + i) with (a + (1 + i)) by lia. apply H. lia.
Qed.

Lemma load_app (m : mem) (n1 n2 : nat) : forall a,
  load m a (n1 + n2) = load m a n1 ++ load m (a + Z.of_nat n1) n2.
Proof.
  induction n1 as [| k IH]; intros a.
  - simpl. now rewrite Z.add_0_r.
  - cbn [Nat.add load app]. rewrite IH. do 3 f_equal. lia.
Qed.

Lemma load_memcpy (m : mem) (dst src : Z) (n : N) :
  load (memcpy m dst src n) dst (N.to_nat n) =
  load (fun i => m (i - dst + src)) dst (N.to_nat n).
Proof.
  apply load_ext. intros i Hi. rewrite memcpy_inside by lia.
  f_equal. lia.
Qed.

Lemma load_shift (m : mem) (n : nat) : forall a b,
  load (fun i => m (i - a + b)) a n = load m b n.
Proof.
  induction n as [| k IH]; intros a b; simpl; trivial.
  f_equal.
  - f_equal. lia.
  - rewrite <- (IH (a + 1) (b + 1)). apply load_ext. intros i _.
    f_equal. lia.
Qed.

Lemma load_memcpy_dst (m : mem) (dst src : Z) (n : N) :
  load (memcpy m dst src n) dst (N.to_nat n) = load m src (N.to_nat n).
Proof. rewrite load_memcpy. apply load_shift. Qed.

Lemma segs_len_nonneg (segs : list bio_vec) : 0 <= segs_len segs.
Proof. induction segs as [| bv rest IH]; simpl; lia. Qed.

Lemma segs_len_app (s1 s2 : list bio_vec) :
  segs_len (s1 ++ s2) = segs_len s1 + segs_len s2.
Proof. induction s1 as [| bv rest IH]; simpl; lia. Qed.

Lemma pages_head_ext (m m' : mem) (segs : list bio_vec) :
  Forall (fun bv => forall i, 0 <= i < Z.of_N (bv_len bv) ->
                     m (kmap_atomic (bv_page bv) + i) =
                     m' (kmap_atomic (bv_page bv) + i)) segs ->
  pages_head m segs = pages_head m' segs.
Proof.
  induction 1 as [| bv rest Hbv _ IH]; simpl; trivial.
  rewrite IH. f_equal. apply load_ext. intros i Hi. apply Hbv. lia.
Qed.

(** ** The segment loop *)

Section SegmentLoop.

Variable base : Z.

Let page_range (bv : bio_vec) (a : Z) : Prop :=
  kmap_atomic (bv_page bv) <= a <
  kmap_atomic (bv_page bv) + Z.of_N (bv_len bv).

Lemma loop_cons (dir : data_dir) (bv : bio_vec) (rest : list bio_vec)
      (st : seg_state) :
  bio_for_each_segment dir base (bv :: rest) st =
  bio_for_each_segment dir base rest (segment_step dir base st bv).
Proof. reflexivity. Qed.

Lemma loop_app (dir : data_dir) (s1 s2 : list bio_vec) (st : seg_state) :
  bio_for_each_segment dir base (s1 ++ s2) st =
  bio_for_each_segment dir base s2 (bio_for_each_segment dir base s1 st).
Proof. apply fold_left_app. Qed.

(** The running offset is the start offset plus the lengths so far,
    as a [loff_t]. *)
Lemma loop_offset (dir : data_dir) (segs : list bio_vec) :
  forall st x,
    ss_offset st = CInt.s64 x ->
    ss_offset (bio_for_each_segment dir base segs st) =
    CInt.s64 (x + segs_len segs).
Proof.
  induction segs as [| bv rest IH]; intros st x Hst.
  - simpl. now rewrite Z.add_0_r.
  - rewrite loop_cons.
    rewrite (IH _ (x + Z.of_N (bv_len bv))).
    + simpl. f_equal. lia.
    + simpl. rewrite Hst. apply s64_add_l.
Qed.

(** A read writes into the addressed bytes of the segment pages only. *)
Lemma read_untouched (segs : list bio_vec) :
  forall st a,
    Forall (fun bv => ~ page_range bv a) segs ->
    ss_mem (bio_for_each_segment READ base segs st) a = ss_mem st a.
Proof.
  induction segs as [| bv rest IH]; intros st a H; trivial.
  inversion H as [| ? ? Hbv Hrest]; subst.
  rewrite loop_cons, IH by assumption.
  simpl. apply memcpy_outside. exact Hbv.
Qed.

(** A write whose offsets stay within [loff_t] touches only the
    addresses from [base + offset] on, for the total length. *)
Lemma write_untouched (segs : list bio_vec) :
  forall st a,
    - 2 ^ 63 <= ss_offset st ->
    ss_offset st + segs_len segs < 2 ^ 63 ->
    ~ (base + ss_offset st <= a < base + ss_offset st + segs_len segs) ->
    ss_mem (bio_for_each_segment WRITE base segs st) a = ss_mem st a.
Proof.
  induction segs as [| bv rest IH]; intros st a Hlo Hhi Ha; trivial.
  rewrite loop_cons. simpl in Hhi, Ha.
  pose proof (segs_len_nonneg rest) as Hrest.
  assert (Hoff : ss_offset (segment_step WRITE base st bv) =
                 ss_offset st + Z.of_N (bv_len bv))
    by (simpl; apply s64_small; lia).
  rewrite IH; rewrite ?Hoff; try lia.
  simpl. apply memcpy_outside. lia.
Qed.

(** The same for store indices (addresses at or above [base]), also
    when the running offset wraps around. *)
Lemma write_untouched_wrap (segs : list bio_vec) :
  forall off0 acc st i,
    - 2 ^ 63 <= off0 < 2 ^ 63 ->
    0 <= acc ->
    acc + segs_len segs <= 2 ^ 63 ->
    ss_offset st = CInt.s64 (off0 + acc) ->
    0 <= i ->
    ~ (off0 + acc <= i < off0 + acc + segs_len segs) ->
    ss_mem (bio_for_each_segment WRITE base segs st) (base + i) =
    ss_mem st (base + i).
Proof.
  induction segs as [| bv rest IH];
    intros off0 acc st i Hoff0 Hacc Htot Hst Hi Hout; trivial.
  rewrite loop_cons. simpl in Htot, Hout.
  pose proof (segs_len_nonneg rest) as Hrest.
  rewrite (IH off0 (acc + Z.of_N (bv_len bv))); try lia.
  - simpl. apply memcpy_outside. rewrite Hst.
    destruct (Z_lt_le_dec (off0 + acc) (2 ^ 63)) as [Hs | Hb].
    + rewrite s64_small by lia. lia.
    + rewrite s64_high by (rewrite pow2_63, pow2_64 in *; lia).
      rewrite pow2_63, pow2_64 in *. lia.
  - simpl. rewrite Hst, s64_add_l. f_equal. lia.
Qed.

End SegmentLoop.


(** ** What a request transfers *)

Lemma buf_outside_weaken (lo hi lo' hi' : Z) (segs : list bio_vec) :
  lo <= lo' -> hi' <= hi ->
  Forall (buf_outside lo hi) segs -> Forall (buf_outside lo' hi') segs.
Proof.
  intros Hlo Hhi. apply Forall_impl. intros bv. unfold buf_outside. lia.
Qed.

(** After a write the destination range holds the bytes at the start of
    the segment pages. *)
Lemma write_content (base : Z) (segs : list bio_vec) :
  forall st,
    - 2 ^ 63 <= ss_offset st ->
    ss_offset st + segs_len segs < 2 ^ 63 ->
    Forall (buf_outside (base + ss_offset st)
                        (base + ss_offset st + segs_len segs)) segs ->
    load (ss_mem (bio_for_each_segment WRITE base segs st))
         (base + ss_offset st) (Z.to_nat (segs_len segs)) =
    pages_head (ss_mem st) segs.
Proof.
  induction segs as [| bv rest IH]; intros st Hlo Hhi Hout; trivial.
  inversion Hout as [| ? ? Hbv Hrest]; subst.
  pose proof (segs_len_nonneg rest) as Hnn.
  rewrite loop_cons. cbn [segs_len fold_right] in *. fold (segs_len rest) in *.
  set (st1 := segment_step WRITE base st bv).
  assert (Hoff : ss_offset st1 = ss_offset st + Z.of_N (bv_len bv))
    by (simpl; apply s64_small; lia).
  replace (Z.to_nat (Z.of_N (bv_len bv) + segs_len rest))
    with (N.to_nat (bv_len bv) + Z.to_nat (segs_len rest))%nat by lia.
  rewrite load_app. cbn [pages_head flat_map]. f_equal.
  - rewrite <- (load_memcpy_dst (ss_mem st) (base + ss_offset st)).
    apply load_ext. intros i Hi.
    apply write_untouched; rewrite ?Hoff; lia.
  - rewrite N_nat_Z.
    replace (base + ss_offset st + Z.of_N (bv_len bv))
      with (base + ss_offset st1) by lia.
    rewrite IH; rewrite ?Hoff; try lia.
    + apply pages_head_ext.
      eapply Forall_impl; [ | exact Hrest ].
      intros bv' Hbv' i Hi. simpl. apply memcpy_outside.
      unfold buf_outside in Hbv'. lia.
    + eapply buf_outside_weaken; [ | | exact Hrest ]; lia.
Qed.

(** After a read the bytes at the start of the segment pages hold the
    source range. *)
Lemma read_content (base : Z) (segs : list bio_vec) :
  forall st,
    - 2 ^ 63 <= ss_offset st ->
    ss_offset st + segs_len segs < 2 ^ 63 ->
    Forall (buf_outside (base + ss_offset st)
                        (base + ss_offset st + segs_len segs)) segs ->
    pairwise_apart segs ->
    pages_head (ss_mem (bio_for_each_segment READ base segs st)) segs =
    load (ss_mem st) (base + ss_offset st) (Z.to_nat (segs_len segs)).
Proof.
  induction segs as [| bv rest IH]; intros st Hlo Hhi Hout Hapart; trivial.
  inversion Hout as [| ? ? Hbv Hrest]; subst.
  destruct Hapart as [Hbv_rest Hapart].
  pose proof (segs_len_nonneg rest) as Hnn.
  rewrite loop_cons. cbn [segs_len fold_right] in *. fold (segs_len rest) in *.
  set (st1 := segment_step READ base st bv).
  assert (Hoff : ss_offset st1 = ss_offset st + Z.of_N (bv_len bv))
    by (simpl; apply s64_small; lia).
  replace (Z.to_nat (Z.of_N (bv_len bv) + segs_len rest))
    with (N.to_nat (bv_len bv) + Z.to_nat (segs_len rest))%nat by lia.
  rewrite load_app. cbn [pages_head flat_map]. f_equal.
  - rewrite <- (load_memcpy_dst (ss_mem st) (kmap_atomic (bv_page bv))
                                (base + ss_offset st)).
    apply load_ext. intros i Hi.
    apply read_untouched.
    eapply Forall_impl; [ | exact Hbv_rest ].
    intros bv' Hbv'. unfold bufs_apart, buf_outside in Hbv'. lia.
  - fold (pages_head (ss_mem (bio_for_each_segment READ base rest st1)) rest).
    rewrite IH; rewrite ?Hoff; try lia; trivial.
    + rewrite N_nat_Z.
      replace (base + (ss_offset st + Z.of_N (bv_len bv)))
        with (base + ss_offset st + Z.of_N (bv_len bv)) by lia.
      apply load_ext. intros i Hi. simpl. apply memcpy_outside.
      unfold buf_outside in Hbv. lia.
    + eapply buf_outside_weaken; [ | | exact Hrest ]; lia.
Qed.

(** ** Requests within the device *)

Lemma in_range_offset (dev : xiprd_dev) (bi : bio) :
  0 <= bi_sector bi ->
  size dev < 2 ^ 63 ->
  bi_sector bi * 512 + bio_len bi <= size dev ->
  bio_offset bi = bi_sector bi * 512.
Proof.
  intros Hs Hsz Hlen. apply bio_offset_sector.
  pose proof (segs_len_nonneg (bi_io_vec bi)) as Hnn. unfold bio_len in Hlen.
  change (2 ^ 54) with 18014398509481984. rewrite pow2_63 in Hsz. lia.
Qed.

Lemma segs_data_offset0 (m : mem) (segs : list bio_vec) :
  Forall (fun bv => bv_offset bv = 0%N) segs ->
  segs_data m segs = pages_head m segs.
Proof.
  induction 1 as [| bv rest Hbv _ IH]; trivial.
  cbn [segs_data pages_head flat_map].
  fold (segs_data m rest). fold (pages_head m rest). rewrite IH.
  unfold seg_buf. rewrite Hbv, Z.add_0_r. reflexivity.
Qed.

Lemma segs_data_ext (m m' : mem) (segs : list bio_vec) :
  Forall (fun bv => forall i, 0 <= i < Z.of_N (bv_len bv) ->
                     m (seg_buf bv + i) = m' (seg_buf bv + i)) segs ->
  segs_data m segs = segs_data m' segs.
Proof.
  induction 1 as [| bv rest Hbv _ IH]; trivial.
  cbn [segs_data flat_map]. fold (segs_data m rest) (segs_data m' rest).
  rewrite IH. f_equal. apply load_ext. intros i Hi. apply Hbv. lia.
Qed.

(** What two requests over the same range transfer between the starts
    of their pages. *)
Lemma write_then_read_pages
      (dev : xiprd_dev) (wbi rbi : bio) (m : mem) :
  bio_data_dir wbi = WRITE ->
  bio_data_dir rbi = READ ->
  0 <= bi_sector wbi ->
  bi_sector rbi = bi_sector wbi ->
  bio_len rbi = bio_len wbi ->
  size dev < 2 ^ 63 ->
  bi_sector wbi * 512 + bio_len wbi <= size dev ->
  Forall (buf_outside (ramdisk dev) (ramdisk dev + size dev)) (bi_io_vec wbi) ->
  Forall (buf_outside (ramdisk dev) (ramdisk dev + size dev)) (bi_io_vec rbi) ->
  pairwise_apart (bi_io_vec rbi) ->
  pages_head
    (mr_mem (xiprd_make_request dev rbi
               (mr_mem (xiprd_make_request dev wbi m))))
    (bi_io_vec rbi) =
  pages_head m (bi_io_vec wbi).
Proof.
  intros Hw Hr Hs Hsect Hlen Hsz Hin Hwout Hrout Hapart.
  assert (Hoffw : bio_offset wbi = bi_sector wbi * 512)
    by (apply (in_range_offset dev); assumption).
  assert (Hoffr : bio_offset rbi = bi_sector wbi * 512).
  { unfold bio_offset. rewrite Hsect. exact Hoffw. }
  pose proof (segs_len_nonneg (bi_io_vec wbi)) as Hnn.
  unfold bio_len in *.
  unfold xiprd_make_request. rewrite Hw, Hr. cbn [mr_mem].
  rewrite read_content; cbn [ss_offset ss_mem]; rewrite ?Hoffr, ?Hlen;
    try lia; trivial.
  - rewrite <- Hoffw.
    change (bio_offset wbi)
      with (ss_offset (mk_seg_state (bio_offset wbi) m [])) at 2.
    rewrite write_content; cbn [ss_offset ss_mem]; rewrite ?Hoffw;
      try lia; trivial.
    eapply buf_outside_weaken; [ | | exact Hwout ]; lia.
  - eapply buf_outside_weaken; [ | | exact Hrout ]; lia.
Qed.

(** C1 on the code: the handler maps the page of a segment and copies
    from or to the start of the page; it never adds [bv_offset].  On the
    1 MiB device, a write at sector 0 of the 512 bytes of 0xAB held at
    offset 512 of a page, followed by a read of sector 0 into offset 512
    of another page, both within the device and with buffers outside the
    RAM disk, returns 0 twice and hands back 512 zero bytes: the write
    stored the first 512 bytes of the source page, and the read filled
    the first 512 bytes of the destination page. *)
Theorem roundtrip_loses_data_at_bv_offset :
  let written := xiprd_make_request dev_1MiB bio_write_offset512 mem_ab_512 in
  let read := xiprd_make_request dev_1MiB bio_read_offset512 (mr_mem written) in
  bi_sector bio_write_offset512 * 512 + bio_len bio_write_offset512
    <= size dev_1MiB /\
  Forall (data_outside (ramdisk dev_1MiB) (ramdisk dev_1MiB + size dev_1MiB))
         (bi_io_vec bio_write_offset512 ++ bi_io_vec bio_read_offset512) /\
  Forall (buf_outside (ramdisk dev_1MiB) (ramdisk dev_1MiB + size dev_1MiB))
         (bi_io_vec bio_write_offset512 ++ bi_io_vec bio_read_offset512) /\
  mr_ret written = 0 /\ mr_ret read = 0 /\
  segs_data mem_ab_512 (bi_io_vec bio_write_offset512) = repeat xab 512 /\
  load (mr_mem written) (ramdisk dev_1MiB) 512 = repeat x00 512 /\
  segs_data (mr_mem read) (bi_io_vec bio_read_offset512) = repeat x00 512 /\
  segs_data (mr_mem read) (bi_io_vec bio_read_offset512) <>
  segs_data mem_ab_512 (bi_io_vec bio_write_offset512).
Proof.
  split; [ cbn; lia | ].
  split; [ repeat constructor; unfold data_outside, seg_buf; cbn; lia | ].
  split; [ repeat constructor; unfold buf_outside; cbn; lia | ].
  repeat split; try reflexivity.
  intros H. vm_compute in H. discriminate H.
Qed.

(** For segments whose data start their page ([bv_offset] 0), a write
    request followed by a read request over the same byte range of the
    device returns the written data: for every request pair on the same
    start sector with equal total length, lying within the [size] bytes
    of the device, with buffers outside the RAM disk (and the read
    buffers not overlapping one another), the read segments hold, in
    order, exactly the data of the write segments; both requests
    return 0. *)
Theorem write_then_read_roundtrip
        (dev : xiprd_dev) (wbi rbi : bio) (m : mem) :
  bio_data_dir wbi = WRITE ->
  bio_data_dir rbi = READ ->
  Forall (fun bv => bv_offset bv = 0%N) (bi_io_vec wbi) ->
  Forall (fun bv => bv_offset bv = 0%N) (bi_io_vec rbi) ->
  0 <= bi_sector wbi ->
  bi_sector rbi = bi_sector wbi ->
  bio_len rbi = bio_len wbi ->
  size dev < 2 ^ 63 ->
  bi_sector wbi * 512 + bio_len wbi <= size dev ->
  Forall (buf_outside (ramdisk dev) (ramdisk dev + size dev)) (bi_io_vec wbi) ->
  Forall (buf_outside (ramdisk dev) (ramdisk dev + size dev)) (bi_io_vec rbi) ->
  pairwise_apart (bi_io_vec rbi) ->
  let written := xiprd_make_request dev wbi m in
  let read := xiprd_make_request dev rbi (mr_mem written) in
  mr_ret written = 0 /\ mr_ret read = 0 /\
  segs_data (mr_mem read) (bi_io_vec rbi) = segs_data m (bi_io_vec wbi).
Proof.
  intros Hw Hr Hw0 Hr0 Hs Hsect Hlen Hsz Hin Hwout Hrout Hapart written read.
  split; [ reflexivity | split; [ reflexivity | ] ].
  subst read written.
  rewrite !segs_data_offset0 by assumption.
  now apply write_then_read_pages.
Qed.

Lemma write_then_read_roundtrip_witness :
  segs_data
    (mr_mem (xiprd_make_request dev_1MiB bio_read_sector0
               (mr_mem (xiprd_make_request dev_1MiB bio_write_sector0 mem_ab))))
    (bi_io_vec bio_read_sector0) =
  segs_data mem_ab (bi_io_vec bio_write_sector0).
Proof.
  apply (write_then_read_roundtrip dev_1MiB bio_write_sector0
           bio_read_sector0 mem_ab);
    try reflexivity; try (cbn; lia);
    repeat constructor; unfold buf_outside; cbn; lia.
Defined.

(** ** Requests beyond the device *)

(** C2, as stated, fails: a write of 1024 bytes at sector 1 of a
    1024-byte device addresses bytes 512..1535, beyond the device, yet
    the handler returns 0, completes the bio with status 0, and has
    overwritten byte 512 of the RAM disk. *)
Lemma out_of_range_write_not_rejected :
  let c := xiprd_make_request dev_1KiB bio_write_sector1 mem_ab in
  size dev_1KiB = 1024 /\
  bio_offset bio_write_sector1 + bio_len bio_write_sector1 = 1536 /\
  mr_ret c = 0 /\ mr_endio c = 0 /\
  mem_ab (ramdisk dev_1KiB + 512) = x00 /\
  mr_mem c (ramdisk dev_1KiB + 512) = xab /\
  store_bytes dev_1KiB (mr_mem c) <> store_bytes dev_1KiB mem_ab.
Proof.
  repeat split; try reflexivity.
  intros H.
  apply (f_equal (fun l => nth 512 l x00)) in H.
  vm_compute in H. discriminate H.
Qed.

(** C2, amended: the handler checks no range.  Every request, read or
    write, returns 0 and completes with status 0, whatever its range and
    the size of the device.  A write is copied in full whether or not its
    range lies within [size]: when its segments have [bv_offset] 0, its
    range fits [loff_t] and its buffers lie outside the destination
    range, the bytes from [ramdisk + offset] on, for the total length,
    are afterwards the data of the request. *)
Theorem write_copies_whole_range (dev : xiprd_dev) (bi : bio) (m : mem) :
  let c := xiprd_make_request dev bi m in
  mr_ret c = 0 /\ mr_endio c = 0 /\
  (bio_data_dir bi = WRITE ->
   Forall (fun bv => bv_offset bv = 0%N) (bi_io_vec bi) ->
   bio_offset bi + bio_len bi < 2 ^ 63 ->
   Forall (buf_outside (ramdisk dev + bio_offset bi)
                       (ramdisk dev + bio_offset bi + bio_len bi))
          (bi_io_vec bi) ->
   load (mr_mem c) (ramdisk dev + bio_offset bi) (Z.to_nat (bio_len bi)) =
   segs_data m (bi_io_vec bi)).
Proof.
  intros c.
  split; [ reflexivity | split; [ reflexivity | ] ].
  intros Hw H0 Hhi Hout.
  rewrite segs_data_offset0 by assumption.
  subst c. unfold xiprd_make_request. rewrite Hw. cbn [mr_mem].
  change (bio_offset bi) with (ss_offset (mk_seg_state (bio_offset bi) m []))
    at 2.
  apply write_content; cbn [ss_offset]; trivial.
  apply s64_range.
Qed.

Lemma write_copies_whole_range_witness :
  let c := xiprd_make_request dev_1KiB bio_write_sector1 mem_ab in
  size dev_1KiB < bio_offset bio_write_sector1 + bio_len bio_write_sector1 /\
  mr_ret c = 0 /\ mr_endio c = 0 /\
  load (mr_mem c) (ramdisk dev_1KiB + bio_offset bio_write_sector1)
       (Z.to_nat (bio_len bio_write_sector1)) =
  segs_data mem_ab (bi_io_vec bio_write_sector1).
Proof.
  destruct (write_copies_whole_range dev_1KiB bio_write_sector1 mem_ab)
    as (Hret & Hend & Hdata).
  split; [ cbn; lia | ].
  split; [ exact Hret | split; [ exact Hend | ] ].
  apply Hdata.
  - reflexivity.
  - repeat constructor.
  - reflexivity.
  - repeat constructor. unfold buf_outside. cbn. lia.
Defined.

(** ** Frame *)

Lemma read_keeps_store (dev : xiprd_dev) (bi : bio) (m : mem) (i : Z) :
  bio_data_dir bi = READ ->
  0 <= i < size dev ->
  Forall (buf_outside (ramdisk dev) (ramdisk dev + size dev)) (bi_io_vec bi) ->
  mr_mem (xiprd_make_request dev bi m) (ramdisk dev + i) = m (ramdisk dev + i).
Proof.
  intros Hr Hi Hout. unfold xiprd_make_request. rewrite Hr. cbn [mr_mem].
  rewrite read_untouched; trivial.
  eapply Forall_impl; [ | exact Hout ].
  intros bv Hbv. unfold buf_outside in Hbv. lia.
Qed.

Lemma write_keeps_rest (dev : xiprd_dev) (bi : bio) (m : mem) (i : Z) :
  bio_data_dir bi = WRITE ->
  0 <= i ->
  bio_len bi <= 2 ^ 63 ->
  ~ (bio_offset bi <= i < bio_offset bi + bio_len bi) ->
  mr_mem (xiprd_make_request dev bi m) (ramdisk dev + i) = m (ramdisk dev + i).
Proof.
  intros Hw Hi Hlen Hout. unfold xiprd_make_request. rewrite Hw. cbn [mr_mem].
  rewrite (write_untouched_wrap (ramdisk dev) (bi_io_vec bi) (bio_offset bi) 0);
    trivial; rewrite ?Z.add_0_r; try lia.
  - apply s64_range.
  - cbn [ss_offset]. symmetry. apply s64_idem.
  - exact Hout.
Qed.

(** C9: frame of a request on the RAM disk.  For a read, with segment
    buffers outside the RAM disk, every byte of the RAM disk is
    unchanged; for a write, every byte of the RAM disk whose index is
    outside [offset, offset + total length) is unchanged. *)
Theorem make_request_frame (dev : xiprd_dev) (bi : bio) (m : mem) (i : Z) :
  0 <= i < size dev ->
  match bio_data_dir bi with
  | READ =>
      Forall (buf_outside (ramdisk dev) (ramdisk dev + size dev))
             (bi_io_vec bi)
  | WRITE =>
      bio_len bi <= 2 ^ 63 /\
      ~ (bio_offset bi <= i < bio_offset bi + bio_len bi)
  end ->
  mr_mem (xiprd_make_request dev bi m) (ramdisk dev + i) = m (ramdisk dev + i).
Proof.
  intros Hi H. destruct (bio_data_dir bi) eqn:Hdir.
  - now apply read_keeps_store.
  - destruct H as [Hlen Hout]. apply write_keeps_rest; trivial. lia.
Qed.

Lemma make_request_frame_witness :
  mr_mem (xiprd_make_request dev_1MiB bio_read_sector0 mem_ab)
         (ramdisk dev_1MiB + 0) = mem_ab (ramdisk dev_1MiB + 0) /\
  mr_mem (xiprd_make_request dev_1MiB bio_write_sector0 mem_ab)
         (ramdisk dev_1MiB + 512) = mem_ab (ramdisk dev_1MiB + 512).
Proof.
  split.
  - apply (make_request_frame dev_1MiB bio_read_sector0 mem_ab 0).
    + cbn. lia.
    + cbn. repeat constructor. unfold buf_outside. cbn. lia.
  - apply (make_request_frame dev_1MiB bio_write_sector0 mem_ab 512).
    + cbn. lia.
    + cbn. split; [ discriminate | lia ].
Defined.

(** ** Empty requests and empty segments *)

Lemma memcpy_ext (m m' : mem) (dst src : Z) (n : N) :
  (forall a, m a = m' a) ->
  forall a, memcpy m dst src n a = memcpy m' dst src n a.
Proof.
  intros H a. unfold memcpy.
  destruct ((dst <=? a) && (a <? dst + Z.of_N n)); apply H.
Qed.

(** The loop depends on the memory only through its bytes. *)
Lemma loop_mem_ext (dir : data_dir) (base : Z) (segs : list bio_vec) :
  forall st st',
    ss_offset st = ss_offset st' ->
    (forall a, ss_mem st a = ss_mem st' a) ->
    forall a,
      ss_mem (bio_for_each_segment dir base segs st) a =
      ss_mem (bio_for_each_segment dir base segs st') a.
Proof.
  induction segs as [| bv rest IH]; intros st st' Hoff Hmem; trivial.
  rewrite !loop_cons. apply IH.
  - simpl. now rewrite Hoff.
  - intros a. simpl. rewrite Hoff.
    destruct dir; apply memcpy_ext; exact Hmem.
Qed.

Lemma zero_segment_step (dir : data_dir) (base : Z) (st : seg_state)
      (page x : Z) (off : N) :
  ss_offset st = CInt.s64 x ->
  let st' := segment_step dir base st (mk_bio_vec page 0 off) in
  ss_offset st' = ss_offset st /\ forall a, ss_mem st' a = ss_mem st a.
Proof.
  intros Hst st'. split.
  - simpl. rewrite Z.add_0_r, Hst. apply s64_idem.
  - intros a. simpl. destruct dir; apply memcpy_zero.
Qed.

(** C8: a request with no segment returns 0, completes with status 0,
    issues no copy and leaves the whole memory (RAM disk and buffers) as
    it was; a segment of length zero anywhere in a request changes
    neither the resulting memory nor the return value, compared with the
    same request without that segment. *)
Theorem empty_request_and_empty_segment
        (dev : xiprd_dev) (sector : Z) (dir : data_dir) (m : mem)
        (before after : list bio_vec) (page : Z) (off : N) :
  let none := xiprd_make_request dev (mk_bio sector dir []) m in
  let padded :=
    xiprd_make_request dev
      (mk_bio sector dir (before ++ mk_bio_vec page 0 off :: after)) m in
  let plain := xiprd_make_request dev (mk_bio sector dir (before ++ after)) m in
  (mr_ret none = 0 /\ mr_endio none = 0 /\ mr_copies none = [] /\
   mr_mem none = m) /\
  (mr_ret padded = mr_ret plain /\ mr_endio padded = mr_endio plain /\
   forall a, mr_mem padded a = mr_mem plain a).
Proof.
  intros none padded plain.
  split; [ repeat split | split; [ reflexivity | split; [ reflexivity | ] ] ].
  intros a. subst padded plain. unfold xiprd_make_request.
  cbn [mr_mem bi_io_vec bio_data_dir bi_rw].
  rewrite !loop_app, loop_cons.
  set (st0 := mk_seg_state _ m []).
  set (st1 := bio_for_each_segment dir (ramdisk dev) before st0).
  assert (Hst1 : ss_offset st1 =
                 CInt.s64 (CInt.shl64 sector KERNEL_SHIFT + segs_len before))
    by (apply loop_offset; reflexivity).
  destruct (zero_segment_step dir (ramdisk dev) st1 page _ off Hst1)
    as [Ho Hm].
  apply loop_mem_ext; assumption.
Qed.

(** ** Sector to byte offset *)

Lemma loop_copies_prefix (dir : data_dir) (base : Z) (segs : list bio_vec) :
  forall st, exists tail,
    ss_copies (bio_for_each_segment dir base segs st) = ss_copies st ++ tail.
Proof.
  induction segs as [| bv rest IH]; intros st.
  - exists []. simpl. now rewrite app_nil_r.
  - rewrite loop_cons.
    destruct (IH (segment_step dir base st bv)) as [tail Htail].
    rewrite Htail. simpl. rewrite <- app_assoc. eexists. reflexivity.
Qed.

Lemma first_copy_at_bio_offset (dev : xiprd_dev) (bi : bio) (m : mem) :
  bi_io_vec bi <> [] ->
  first_copy_offset (xiprd_make_request dev bi m) = Some (bio_offset bi).
Proof.
  intros Hne. unfold first_copy_offset, xiprd_make_request. cbn [mr_copies].
  destruct (bi_io_vec bi) as [| bv rest]; [ contradiction | ].
  rewrite loop_cons.
  destruct (loop_copies_prefix (bio_data_dir bi) (ramdisk dev) rest
              (segment_step (bio_data_dir bi) (ramdisk dev)
                            (mk_seg_state (bio_offset bi) m []) bv))
    as [tail Htail].
  rewrite Htail. reflexivity.
Qed.

(** C4, as stated, fails: on a device initialised with 4096-byte
    sectors (the logical block size handed to the queue is 4096), the
    copy of a one-block request at kernel sector 8 starts at byte 4096,
    not at 8 * 4096. *)
Lemma offset_ignores_sector_size :
  let r := xiprd_init host_ok 4096 256 in
  ir_rc r = 0 /\
  In (EvBlkQueueLogicalBlockSize 4096 4096) (ir_trace r) /\
  bi_sector bio_write_4096_sector8 = 8 /\
  bio_len bio_write_4096_sector8 = 4096 /\
  first_copy_offset
    (xiprd_make_request (ir_dev r) bio_write_4096_sector8 mem_ab) =
  Some 4096 /\
  first_copy_offset
    (xiprd_make_request (ir_dev r) bio_write_4096_sector8 mem_ab) <>
  Some (bi_sector bio_write_4096_sector8 * 4096).
Proof.
  repeat split; try reflexivity.
  - cbn. intuition.
  - discriminate.
Qed.

(** C4, amended: the first copy of a request begins at byte offset
    start sector * 512, the kernel sector unit ([KERNEL_SHIFT]), whatever
    sector size and sector count the device was initialised with, for
    every start sector below 2^54 (beyond, the product does not fit
    [loff_t]); that offset is start sector * sector size exactly when
    the sector size is 512 or the start sector is 0. *)
Theorem first_copy_offset_kernel_sectors
        (h : host) (sector_size num_sectors : Z) (bi : bio) (m : mem) :
  0 <= bi_sector bi < 2 ^ 54 ->
  bi_io_vec bi <> [] ->
  let c :=
    xiprd_make_request (ir_dev (xiprd_init h sector_size num_sectors)) bi m in
  first_copy_offset c = Some (bi_sector bi * 2 ^ KERNEL_SHIFT) /\
  (first_copy_offset c = Some (bi_sector bi * sector_size) <->
   sector_size = 512 \/ bi_sector bi = 0).
Proof.
  intros Hs Hne c. subst c. rewrite first_copy_at_bio_offset by assumption.
  rewrite bio_offset_sector by assumption.
  unfold KERNEL_SHIFT. change (2 ^ 9) with 512.
  split; [ reflexivity | split ].
  - intros Heq. injection Heq as Heq.
    destruct (Z.eq_dec (bi_sector bi) 0) as [Hz | Hnz]; [ now right | left ].
    apply (Z.mul_cancel_l 512 sector_size (bi_sector bi) Hnz) in Heq.
    now symmetry.
  - intros [Hss | Hz]; [ now rewrite Hss | now rewrite Hz ].
Qed.

Lemma first_copy_offset_kernel_sectors_witness :
  first_copy_offset
    (xiprd_make_request (ir_dev (xiprd_init host_ok 4096 256))
                        bio_write_4096_sector8 mem_ab) =
  Some (bi_sector bio_write_4096_sector8 * 2 ^ KERNEL_SHIFT).
Proof.
  apply (first_copy_offset_kernel_sectors host_ok 4096 256
           bio_write_4096_sector8 mem_ab).
  - cbn. lia.
  - discriminate.
Defined.

(** ** Geometry *)

Lemma getgeo_value (gd : gendisk) :
  0 <= get_capacity gd < 2 ^ 64 ->
  xiprd_getgeo gd =
  (0, mk_geo 64 32 ((get_capacity gd / 2048) mod 65536)).
Proof.
  intros H. unfold xiprd_getgeo, CInt.shr64. rewrite u64_small by assumption.
  rewrite Z.shiftr_div_pow2 by lia. reflexivity.
Qed.

Lemma cylinders_small (c : Z) :
  0 <= c < 2 ^ 27 -> (c / 2048) mod 65536 = c / 2048.
Proof.
  intros H. change (2 ^ 27) with 134217728 in H.
  apply Z.mod_small. split.
  - apply Z.div_pos; lia.
  - apply Z.div_lt_upper_bound; lia.
Qed.

Lemma cylinders_wrapped (c : Z) :
  2 ^ 27 <= c -> (c / 2048) mod 65536 <> c / 2048.
Proof.
  intros H. change (2 ^ 27) with 134217728 in H.
  assert (65536 <= c / 2048) by (apply Z.div_le_lower_bound; lia).
  pose proof (Z.mod_pos_bound (c / 2048) 65536). lia.
Qed.

(** C10: the geometry callback always returns 0, reports 64 heads and
    32 sectors, both within 8 bits, and reports the cylinders through a
    16-bit field: the value is (capacity in 512-byte sectors >> 11)
    modulo 2^16, which equals the unreduced quotient exactly when the
    capacity is below 2^27 sectors (64 GiB). *)
Theorem getgeo_truncates_cylinders (gd : gendisk) :
  0 <= get_capacity gd < 2 ^ 64 ->
  let status := fst (xiprd_getgeo gd) in
  let geo := snd (xiprd_getgeo gd) in
  status = 0 /\
  heads geo = 64 /\ sectors geo = 32 /\
  0 <= heads geo < 2 ^ 8 /\ 0 <= sectors geo < 2 ^ 8 /\
  0 <= cylinders geo < 2 ^ 16 /\
  cylinders geo = Z.shiftr (get_capacity gd) 11 mod 2 ^ 16 /\
  (cylinders geo = Z.shiftr (get_capacity gd) 11 <->
   get_capacity gd < 2 ^ 27).
Proof.
  intros H status geo. subst status geo.
  rewrite getgeo_value by assumption. cbn [fst snd heads sectors cylinders].
  rewrite Z.shiftr_div_pow2 by lia.
  change (2 ^ 11) with 2048. change (2 ^ 16) with 65536.
  change (2 ^ 8) with 256.
  repeat split; try lia.
  - apply Z.mod_pos_bound. lia.
  - apply Z.mod_pos_bound. lia.
  - intros Heq. destruct (Z_lt_le_dec (get_capacity gd) (2 ^ 27)) as [| Hge];
      trivial.
    exfalso. apply (cylinders_wrapped _ Hge). exact Heq.
  - intros Hlt. apply cylinders_small. lia.
Qed.

Lemma getgeo_truncates_cylinders_witness :
  fst (xiprd_getgeo gd_64GiB) = 0 /\
  heads (snd (xiprd_getgeo gd_64GiB)) = 64 /\
  sectors (snd (xiprd_getgeo gd_64GiB)) = 32 /\
  cylinders (snd (xiprd_getgeo gd_64GiB)) = 0.
Proof.
  assert (Hcap : 0 <= get_capacity gd_64GiB < 2 ^ 64) by (cbn; lia).
  destruct (getgeo_truncates_cylinders gd_64GiB Hcap)
    as (Hs & Hh & Hsec & _ & _ & _ & Hc & _).
  repeat split; trivial.
Defined.

(** ** Initialisation *)

Lemma ramdisk_bytes_range (sector_size num_sectors : Z) :
  0 <= ramdisk_bytes sector_size num_sectors < 2 ^ 64.
Proof. apply u64_range. Qed.

(** A run that returns 0 went through every step: the device holds the
    store, a disk whose capacity is the byte size in 512-byte sectors,
    and an initialised lock. *)
Lemma init_success (h : host) (sector_size num_sectors : Z) :
  let r := xiprd_init h sector_size num_sectors in
  let sz := ramdisk_bytes sector_size num_sectors in
  ir_rc r = 0 ->
  ir_dev r =
  mk_dev 0 DRV_NAME true
         (Some (mk_gendisk "xiprd0" 0 0 NUM_MINORS (blk_alloc_queue h)
                           (sz / 512)))
         sz 0 (vmalloc h sz).
Proof.
  intros r sz. subst r. unfold xiprd_init. fold sz.
  destruct (vmalloc h sz =? 0); [ discriminate | ].
  cbn [name].
  destruct (Z.ltb_spec (register_blkdev h 0 DRV_NAME) 0) as [Hneg |].
  { cbn [err_out ir_rc]. lia. }
  destruct (alloc_disk h NUM_MINORS); cbn [negb]; [ | discriminate ].
  destruct (blk_alloc_queue h =? 0); [ discriminate | ].
  intros _. cbn [ir_dev major name lock disk size queue ramdisk].
  unfold set_capacity, CInt.shr64.
  cbn [disk_name gd_major first_minor minors gd_queue].
  rewrite u64_small by apply ramdisk_bytes_range.
  rewrite Z.shiftr_div_pow2 by (unfold KERNEL_SHIFT; lia).
  reflexivity.
Qed.

Lemma init_success_geometry (h : host) (sector_size num_sectors : Z) :
  let r := xiprd_init h sector_size num_sectors in
  ir_rc r = 0 ->
  0 <= size (ir_dev r) / 512 < 2 ^ 64 /\
  option_map xiprd_getgeo (disk (ir_dev r)) =
  Some (0, mk_geo 64 32 ((size (ir_dev r) / 512 / 2048) mod 65536)).
Proof.
  intros r Hrc. subst r. rewrite (init_success _ _ _ Hrc).
  cbn [size disk option_map].
  pose proof (ramdisk_bytes_range sector_size num_sectors) as Hsz.
  assert (Hcap : 0 <= ramdisk_bytes sector_size num_sectors / 512 < 2 ^ 64).
  { split.
    - apply Z.div_pos; lia.
    - apply Z.div_lt_upper_bound; lia. }
  split; trivial. now rewrite getgeo_value.
Qed.

Lemma ramdisk_bytes_product (sector_size num_sectors : Z) :
  0 < sector_size -> 0 < num_sectors ->
  sector_size * num_sectors < 2 ^ 64 ->
  ramdisk_bytes sector_size num_sectors = sector_size * num_sectors.
Proof.
  intros Hs Hn Hp. unfold ramdisk_bytes.
  rewrite pow2_64 in Hp.
  rewrite (u64_small num_sectors) by (rewrite pow2_64; nia).
  rewrite (u64_small sector_size) by (rewrite pow2_64; nia).
  rewrite u64_small by (rewrite pow2_64; nia).
  apply Z.mul_comm.
Qed.

(** C5, as stated, fails from 64 GiB on: a device of 2^27 sectors of
    512 bytes has total_sectors >> 11 = 65536, but the geometry reports
    0 cylinders. *)
Lemma geometry_wraps_at_64GiB :
  let r := xiprd_init host_ok 512 (2 ^ 27) in
  ir_rc r = 0 /\
  size (ir_dev r) = 512 * 2 ^ 27 /\
  Z.shiftr (size (ir_dev r) / 512) 11 = 65536 /\
  option_map xiprd_getgeo (disk (ir_dev r)) = Some (0, mk_geo 64 32 0).
Proof. repeat split; reflexivity. Qed.

(** C5, amended: for every device of positive sector size and sector
    count whose capacity sector_size * num_sectors is below 64 GiB, the
    geometry query returns 0 with heads = 64, sectors = 32 and
    cylinders = total_sectors >> 11, where total_sectors is the capacity
    in bytes divided by 512, whatever the configured sector size; a 1 GiB
    device yields 1024 cylinders. *)
Theorem getgeo_below_64GiB (h : host) (sector_size num_sectors : Z) :
  let r := xiprd_init h sector_size num_sectors in
  let capacity_bytes := sector_size * num_sectors in
  let total_sectors := capacity_bytes / 512 in
  ir_rc r = 0 ->
  0 < sector_size -> 0 < num_sectors ->
  capacity_bytes < 2 ^ 36 ->
  size (ir_dev r) = capacity_bytes /\
  option_map xiprd_getgeo (disk (ir_dev r)) =
  Some (0, mk_geo 64 32 (Z.shiftr total_sectors 11)).
Proof.
  intros r capacity_bytes total_sectors Hrc Hs Hn Hcap.
  subst r capacity_bytes total_sectors.
  destruct (init_success_geometry h sector_size num_sectors Hrc) as [_ Hgeo].
  rewrite Hgeo. rewrite (init_success _ _ _ Hrc). cbn [size].
  change (2 ^ 36) with 68719476736 in Hcap.
  rewrite ramdisk_bytes_product by (rewrite ?pow2_64; lia).
  split; trivial.
  rewrite Z.shiftr_div_pow2 by lia. change (2 ^ 11) with 2048.
  rewrite cylinders_small; trivial.
  change (2 ^ 27) with 134217728. split.
  - apply Z.div_pos; lia.
  - apply Z.div_lt_upper_bound; lia.
Qed.

Lemma getgeo_below_64GiB_witness :
  size (ir_dev (xiprd_init host_ok 512 2097152)) = 1024 * 1024 * 1024 /\
  option_map xiprd_getgeo (disk (ir_dev (xiprd_init host_ok 512 2097152))) =
  Some (0, mk_geo 64 32 1024).
Proof.
  apply (getgeo_below_64GiB host_ok 512 2097152).
  - reflexivity.
  - lia.
  - lia.
  - reflexivity.
Defined.

(** C7, as stated, fails from 64 GiB on: at 2^27 sectors the geometry
    addresses 0 sectors, 2^27 away from the capacity, and fewer than the
    geometry of the smaller device of 2^27 - 2048 sectors. *)
Lemma geometry_not_monotone_at_64GiB :
  let small := ir_dev (xiprd_init host_ok 512 (2 ^ 27 - 2048)) in
  let large := ir_dev (xiprd_init host_ok 512 (2 ^ 27)) in
  0 < size small < size large /\
  option_map chs_sectors (disk_geometry small) = Some (2 ^ 27 - 2048) /\
  option_map chs_sectors (disk_geometry large) = Some 0 /\
  size large / 512 - 0 = 2 ^ 27.
Proof. repeat split; reflexivity. Qed.

(** C7, amended: for devices whose capacity is below 64 GiB, heads *
    sectors * cylinders is at most the capacity in 512-byte sectors and
    less than one cylinder unit (heads * sectors) below it, and it does
    not decrease when the capacity grows. *)
Theorem geometry_consistent_below_64GiB
        (h1 h2 : host) (ss1 ns1 ss2 ns2 : Z) :
  let d1 := ir_dev (xiprd_init h1 ss1 ns1) in
  let d2 := ir_dev (xiprd_init h2 ss2 ns2) in
  ir_rc (xiprd_init h1 ss1 ns1) = 0 ->
  ir_rc (xiprd_init h2 ss2 ns2) = 0 ->
  size d1 <= size d2 ->
  size d2 < 2 ^ 36 ->
  exists g1 g2,
    disk_geometry d1 = Some g1 /\ disk_geometry d2 = Some g2 /\
    0 <= size d1 / 512 - chs_sectors g1 < heads g1 * sectors g1 /\
    chs_sectors g1 <= chs_sectors g2.
Proof.
  intros d1 d2 Hrc1 Hrc2 Hle Hlt. subst d1 d2.
  destruct (init_success_geometry h1 ss1 ns1 Hrc1) as [Hc1 Hg1].
  destruct (init_success_geometry h2 ss2 ns2 Hrc2) as [Hc2 Hg2].
  unfold disk_geometry.
  destruct (disk (ir_dev (xiprd_init h1 ss1 ns1))) as [gd1 |];
    [ | discriminate ].
  destruct (disk (ir_dev (xiprd_init h2 ss2 ns2))) as [gd2 |];
    [ | discriminate ].
  cbn [option_map] in *.
  apply (f_equal (option_map snd)) in Hg1, Hg2.
  cbn [option_map snd] in Hg1, Hg2.
  rewrite Hg1, Hg2.
  do 2 eexists. split; [ reflexivity | split; [ reflexivity | ] ].
  unfold chs_sectors. cbn [heads sectors cylinders].
  set (c1 := size (ir_dev (xiprd_init h1 ss1 ns1)) / 512) in *.
  set (c2 := size (ir_dev (xiprd_init h2 ss2 ns2)) / 512) in *.
  change (2 ^ 36) with 68719476736 in Hlt.
  assert (Hc12 : c1 <= c2) by (apply Z.div_le_mono; lia).
  assert (Hc2' : c2 < 2 ^ 27).
  { change (2 ^ 27) with 134217728.
    apply Z.div_lt_upper_bound; lia. }
  rewrite !cylinders_small by lia.
  assert (Hq : c1 / 2048 <= c2 / 2048) by (apply Z.div_le_mono; lia).
  pose proof (Z.div_mod c1 2048 ltac:(lia)) as Hdm.
  pose proof (Z.mod_pos_bound c1 2048 ltac:(lia)) as Hmod.
  lia.
Qed.

Lemma geometry_consistent_below_64GiB_witness :
  exists g1 g2,
    disk_geometry (ir_dev (xiprd_init host_ok 512 2049)) = Some g1 /\
    disk_geometry (ir_dev (xiprd_init host_ok 4096 512)) = Some g2 /\
    0 <= size (ir_dev (xiprd_init host_ok 512 2049)) / 512 - chs_sectors g1
      < heads g1 * sectors g1 /\
    chs_sectors g1 <= chs_sectors g2.
Proof.
  apply (geometry_consistent_below_64GiB host_ok host_ok 512 2049 4096 512).
  - reflexivity.
  - reflexivity.
  - cbn. lia.
  - reflexivity.
Defined.

(** ** Configuration *)

(** C6, as stated, fails: with sector_size = 0 the first and only event
    is the allocation request, and the error is the allocator's ENOMEM;
    with sector_size = -512 and 2^55 - 1 sectors the byte size wraps to
    512, the allocation is requested and, on a host where every step
    succeeds, initialisation returns 0. *)
Lemma nonpositive_sector_size_reaches_allocator :
  let r0 := xiprd_init host_no_store 0 2048 in
  let r1 := xiprd_init host_ok (-512) (2 ^ 55 - 1) in
  ir_trace r0 = [EvVmalloc 0 0] /\ ir_rc r0 = - ENOMEM /\
  existsb is_vmalloc (ir_trace r0) = true /\
  hd_error (ir_trace r1) = Some (EvVmalloc 512 1048576) /\ ir_rc r1 = 0.
Proof. repeat split; reflexivity. Qed.

(** C6, amended: initialisation validates neither parameter.  For every
    sector size and sector count, positive or not, its first action is
    the request of [(u64)num_sectors * (u64)sector_size] bytes to the
    allocator; when that request fails it returns -ENOMEM with nothing
    acquired and nothing released, and when the four acquisitions
    succeed it returns 0. *)
Theorem init_allocates_unvalidated (h : host) (sector_size num_sectors : Z) :
  let r := xiprd_init h sector_size num_sectors in
  let sz := ramdisk_bytes sector_size num_sectors in
  (exists rest, ir_trace r = EvVmalloc sz (vmalloc h sz) :: rest) /\
  (vmalloc h sz = 0 ->
   ir_rc r = - ENOMEM /\ ir_trace r = [EvVmalloc sz 0]) /\
  (vmalloc h sz <> 0 ->
   0 <= register_blkdev h 0 DRV_NAME ->
   alloc_disk h NUM_MINORS = true ->
   blk_alloc_queue h <> 0 ->
   ir_rc r = 0).
Proof.
  intros r sz. subst r. unfold xiprd_init. fold sz. cbn [name].
  split; [ | split ].
  - destruct (vmalloc h sz =? 0); [ | destruct (_ <? 0);
      [ | destruct (negb _); [ | destruct (_ =? 0) ] ] ];
      unfold err_out; cbn [ramdisk disk];
      repeat match goal with
             | |- context [if ?b then _ else _] => destruct b
             end;
      cbn [ir_trace app]; eexists; reflexivity.
  - intros Hp. rewrite Hp. split; reflexivity.
  - intros Hp Hrc Hdisk Hq.
    destruct (Z.eqb_spec (vmalloc h sz) 0); [ contradiction | ].
    destruct (Z.ltb_spec (register_blkdev h 0 DRV_NAME) 0); [ lia | ].
    rewrite Hdisk. cbn [negb].
    destruct (Z.eqb_spec (blk_alloc_queue h) 0); [ contradiction | ].
    reflexivity.
Qed.

(** ** Rollback *)

(** A failure of the store allocation or of the registration is rolled
    back in full. *)
Lemma init_early_failure_clean (h : host) (sector_size num_sectors : Z) :
  let r := xiprd_init h sector_size num_sectors in
  let sz := ramdisk_bytes sector_size num_sectors in
  vmalloc h sz = 0 \/ register_blkdev h 0 DRV_NAME < 0 ->
  ir_rc r < 0 /\
  outstanding (ir_trace r) = [] /\ stray (audit (ir_trace r)) = [].
Proof.
  intros r sz H. subst r. unfold xiprd_init. fold sz. cbn [name].
  destruct (Z.eqb_spec (vmalloc h sz) 0) as [Hp | Hp].
  - unfold err_out. cbn [ramdisk disk]. rewrite Hp.
    repeat split.
  - destruct H as [H | H]; [ contradiction | ].
    destruct (Z.ltb_spec (register_blkdev h 0 DRV_NAME) 0) as [Hneg |];
      [ | lia ].
    unfold err_out. cbn [ramdisk disk ir_rc ir_trace].
    destruct (Z.eqb_spec (vmalloc h sz) 0); [ contradiction | ].
    split; [ exact Hneg | ].
    unfold outstanding, audit. cbn [fold_left app account].
    destruct (Z.eqb_spec (vmalloc h sz) 0); [ contradiction | ].
    destruct (Z.ltb_spec (register_blkdev h 0 DRV_NAME) 0); [ | lia ].
    unfold release, acquire. cbn [held stray existsb resource_eqb].
    rewrite Z.eqb_refl. cbn. rewrite Z.eqb_refl. split; reflexivity.
Qed.

(** When the disk allocation fails after a successful registration, the
    cleanup frees the store and leaves the registration in place. *)
Lemma init_disk_failure_outstanding
      (h : host) (sector_size num_sectors : Z) :
  let r := xiprd_init h sector_size num_sectors in
  let sz := ramdisk_bytes sector_size num_sectors in
  vmalloc h sz <> 0 ->
  0 <= register_blkdev h 0 DRV_NAME ->
  alloc_disk h NUM_MINORS = false ->
  ir_rc r = - ENOMEM /\
  outstanding (ir_trace r) = [RDriver (register_blkdev h 0 DRV_NAME)].
Proof.
  intros r sz Hp Hrc Hdisk. subst r. unfold xiprd_init. fold sz. cbn [name].
  destruct (Z.eqb_spec (vmalloc h sz) 0); [ contradiction | ].
  destruct (Z.ltb_spec (register_blkdev h 0 DRV_NAME) 0); [ lia | ].
  rewrite Hdisk. cbn [negb]. unfold err_out. cbn [ramdisk disk ir_rc ir_trace].
  destruct (Z.eqb_spec (vmalloc h sz) 0); [ contradiction | ].
  split; [ reflexivity | ].
  unfold outstanding, audit. cbn [fold_left app account].
  destruct (Z.eqb_spec (vmalloc h sz) 0); [ contradiction | ].
  destruct (Z.ltb_spec (register_blkdev h 0 DRV_NAME) 0); [ lia | ].
  unfold release, acquire. cbn [held stray existsb resource_eqb orb].
  rewrite Z.eqb_refl. cbn. rewrite Z.eqb_refl. reflexivity.
Qed.

(** C3 on the code: on a host where the store and the registration
    succeed and the disk allocation fails, initialisation returns
    -ENOMEM having freed the store only: the registration of major 254
    stays outstanding.  When the queue allocation fails instead, the
    cleanup frees the store first, then releases a disk that was never
    published and a queue that was never allocated, and unregisters
    major 0 rather than 254, which again stays outstanding. *)
Theorem init_rollback_leaks_registration :
  let r := xiprd_init host_no_disk 512 2048 in
  let r' := xiprd_init host_no_queue 512 2048 in
  (ir_rc r = - ENOMEM /\
   ir_trace r =
   [EvVmalloc 1048576 1048576; EvRegisterBlkdev 0 "xiprd" 254;
    EvAllocDisk 16 false; EvVfree 1048576] /\
   outstanding (ir_trace r) = [RDriver 254]) /\
  (ir_rc r' = - ENOMEM /\
   ir_trace r' =
   [EvVmalloc 1048576 1048576; EvRegisterBlkdev 0 "xiprd" 254;
    EvAllocDisk 16 true; EvBlkAllocQueue 0; EvVfree 1048576;
    EvDelGendisk; EvPutDisk; EvBlkCleanupQueue 0;
    EvUnregisterBlkdev 0 "xiprd"] /\
   outstanding (ir_trace r') = [RDriver 254] /\
   stray (audit (ir_trace r')) = [RPublished; RQueue 0; RDriver 0]).
Proof. repeat split; reflexivity. Qed.

(** ** Scenarios *)

Example scenario_write_read_sector0 :
  segs_data
    (mr_mem (xiprd_make_request dev_1MiB bio_read_sector0
               (mr_mem (xiprd_make_request dev_1MiB bio_write_sector0 mem_ab))))
    (bi_io_vec bio_read_sector0) = repeat xab 512.
Proof. vm_compute. reflexivity. Qed.

Example scenario_geometry_1GiB :
  option_map xiprd_getgeo
    (disk (ir_dev (xiprd_init host_ok sector_size_default
                              num_sectors_default))) =
  Some (0, mk_geo 64 32 1024).
Proof. reflexivity. Qed.

Example scenario_queue_failure :
  ir_rc (xiprd_init host_no_queue 512 2048) = -12.
Proof. reflexivity. Qed.

Example scenario_two_segments :
  segs_data
    (mr_mem (xiprd_make_request dev_8MiB bio_read_two_segments
               (mr_mem (xiprd_make_request dev_8MiB bio_write_two_segments
                                           mem_ab_cd))))
    (bi_io_vec bio_read_two_segments) =
  repeat xab 4096 ++ repeat xcd 4096.
Proof. vm_compute. reflexivity. Qed.

Example scenario_registration_failure :
  let r := xiprd_init host_no_driver 512 2048 in
  ir_rc r = -16 /\
  outstanding (ir_trace r) = [] /\ stray (audit (ir_trace r)) = [].
Proof. repeat split; reflexivity. Qed.

(** * Further properties *)

(** ** Return code and trace of initialisation *)

(** Initialisation never returns a positive value, and returns 0 exactly
    when the store allocation, the registration, the disk allocation and
    the queue allocation all succeed. *)
Theorem init_return_code (h : host) (sector_size num_sectors : Z) :
  let r := xiprd_init h sector_size num_sectors in
  let sz := ramdisk_bytes sector_size num_sectors in
  ir_rc r <= 0 /\
  (ir_rc r = 0 <->
   vmalloc h sz <> 0 /\ 0 <= register_blkdev h 0 DRV_NAME /\
   alloc_disk h NUM_MINORS = true /\ blk_alloc_queue h <> 0).
Proof.
  intros r sz. subst r. unfold xiprd_init. fold sz. cbn [name].
  destruct (Z.eqb_spec (vmalloc h sz) 0) as [Hp | Hp].
  { cbn [err_out ir_rc]. unfold ENOMEM. split; [ lia | ].
    split; [ discriminate | intros (H & _); contradiction ]. }
  destruct (Z.ltb_spec (register_blkdev h 0 DRV_NAME) 0) as [Hneg | Hrc].
  { cbn [err_out ir_rc]. split; [ lia | ]. split; [ lia | ].
    intros (_ & H & _). lia. }
  destruct (alloc_disk h NUM_MINORS); cbn [negb].
  2: { cbn [err_out ir_rc]. unfold ENOMEM. split; [ lia | ].
       split; [ discriminate | intros (_ & _ & H & _); discriminate ]. }
  destruct (Z.eqb_spec (blk_alloc_queue h) 0) as [Hq | Hq].
  { cbn [err_out ir_rc]. unfold ENOMEM. split; [ lia | ].
    split; [ discriminate | intros (_ & _ & _ & H); contradiction ]. }
  cbn [ir_rc]. split; [ lia | ]. split; [ intros _ | reflexivity ].
  repeat split; assumption.
Qed.

Lemma init_success_trace (h : host) (sector_size num_sectors : Z) :
  let r := xiprd_init h sector_size num_sectors in
  let sz := ramdisk_bytes sector_size num_sectors in
  ir_rc r = 0 ->
  vmalloc h sz <> 0 /\ 0 <= register_blkdev h 0 DRV_NAME /\
  blk_alloc_queue h <> 0 /\
  ir_trace r =
  [EvVmalloc sz (vmalloc h sz);
   EvRegisterBlkdev 0 DRV_NAME (register_blkdev h 0 DRV_NAME);
   EvAllocDisk NUM_MINORS true;
   EvBlkAllocQueue (blk_alloc_queue h);
   EvBlkQueueMakeRequest (blk_alloc_queue h);
   EvBlkQueueLogicalBlockSize (blk_alloc_queue h) sector_size;
   EvSetCapacity (sz / 512);
   EvSpinLockInit;
   EvAddDisk].
Proof.
  intros r sz. subst r. unfold xiprd_init. fold sz. cbn [name].
  destruct (Z.eqb_spec (vmalloc h sz) 0) as [Hp | Hp]; [ discriminate | ].
  destruct (Z.ltb_spec (register_blkdev h 0 DRV_NAME) 0) as [Hneg | Hrc].
  { cbn [err_out ir_rc]. lia. }
  destruct (alloc_disk h NUM_MINORS); cbn [negb]; [ | discriminate ].
  destruct (Z.eqb_spec (blk_alloc_queue h) 0) as [Hq | Hq]; [ discriminate | ].
  intros _. cbn [ir_trace app]. unfold CInt.shr64.
  rewrite u64_small by apply ramdisk_bytes_range.
  rewrite Z.shiftr_div_pow2 by (unfold KERNEL_SHIFT; lia).
  repeat split; trivial.
Qed.

(** A run that returns 0 holds the five resources it acquired, the
    registration under the major the host returned, and has released
    nothing. *)
Theorem init_success_holds_all (h : host) (sector_size num_sectors : Z) :
  let r := xiprd_init h sector_size num_sectors in
  let sz := ramdisk_bytes sector_size num_sectors in
  ir_rc r = 0 ->
  outstanding (ir_trace r) =
  [RPublished; RQueue (blk_alloc_queue h); RDisk;
   RDriver (register_blkdev h 0 DRV_NAME); RStore (vmalloc h sz)] /\
  stray (audit (ir_trace r)) = [].
Proof.
  intros r sz Hrc. subst r.
  destruct (init_success_trace h sector_size num_sectors Hrc)
    as (Hp & Hreg & Hq & Htr).
  rewrite Htr. fold sz in Hp |- *.
  unfold outstanding, audit. cbn [fold_left account].
  destruct (Z.eqb_spec (vmalloc h sz) 0); [ contradiction | ].
  destruct (Z.ltb_spec (register_blkdev h 0 DRV_NAME) 0); [ lia | ].
  destruct (Z.eqb_spec (blk_alloc_queue h) 0); [ contradiction | ].
  split; reflexivity.
Qed.

Lemma init_success_holds_all_witness :
  outstanding (ir_trace (xiprd_init host_ok 512 2048)) =
  [RPublished; RQueue 4096; RDisk; RDriver 254; RStore 1048576] /\
  stray (audit (ir_trace (xiprd_init host_ok 512 2048))) = [].
Proof.
  apply (init_success_holds_all host_ok 512 2048). reflexivity.
Defined.

(** The disk is published exactly by the runs that return 0: a failing
    run never calls add_disk. *)
Theorem init_publishes_iff_success (h : host) (sector_size num_sectors : Z) :
  let r := xiprd_init h sector_size num_sectors in
  In EvAddDisk (ir_trace r) <-> ir_rc r = 0.
Proof.
  intros r. subst r. unfold xiprd_init. cbn [name].
  set (sz := ramdisk_bytes sector_size num_sectors).
  destruct (Z.eqb_spec (vmalloc h sz) 0) as [Hp | Hp].
  { unfold err_out. cbn [ramdisk disk ir_rc ir_trace]. rewrite Hp.
    cbn. unfold ENOMEM. intuition discriminate. }
  destruct (Z.ltb_spec (register_blkdev h 0 DRV_NAME) 0) as [Hneg | Hrc].
  { unfold err_out. cbn [ramdisk disk ir_rc ir_trace].
    destruct (Z.eqb_spec (vmalloc h sz) 0); [ contradiction | ].
    cbn. split; [ intuition discriminate | lia ]. }
  destruct (alloc_disk h NUM_MINORS); cbn [negb].
  2: { unfold err_out. cbn [ramdisk disk ir_rc ir_trace].
       destruct (Z.eqb_spec (vmalloc h sz) 0); [ contradiction | ].
       cbn. unfold ENOMEM. intuition discriminate. }
  destruct (Z.eqb_spec (blk_alloc_queue h) 0) as [Hq | Hq].
  { unfold err_out. cbn [ramdisk disk ir_rc ir_trace].
    destruct (Z.eqb_spec (vmalloc h sz) 0); [ contradiction | ].
    cbn. unfold ENOMEM. intuition discriminate. }
  cbn [ir_rc ir_trace]. split; [ reflexivity | intros _ ].
  apply in_or_app. right. cbn. intuition.
Qed.

Lemma init_early_failure_clean_witness :
  ir_rc (xiprd_init host_no_driver 512 2048) < 0 /\
  outstanding (ir_trace (xiprd_init host_no_driver 512 2048)) = [] /\
  stray (audit (ir_trace (xiprd_init host_no_driver 512 2048))) = [].
Proof.
  apply (init_early_failure_clean host_no_driver 512 2048).
  right. cbn. lia.
Defined.

(** ** Failures after the registration *)

Lemma audit_step (e : event) (tr : list event) (l : ledger) :
  fold_left account (e :: tr) l = fold_left account tr (account l e).
Proof. reflexivity. Qed.

(** Accounts for the next event of a trace whose tests on the host's
    results are settled by equations in the context. *)
Ltac ledger_step :=
  rewrite audit_step; cbn [account]; unfold release, acquire;
  repeat (cbn [held stray existsb resource_eqb orb remove_first app];
          repeat match goal with
                 | H : (_ =? _) = _ |- _ => progress rewrite H
                 | H : (_ <? _) = _ |- _ => progress rewrite H
                 end;
          rewrite ?Z.eqb_refl, ?orb_true_r, ?orb_false_r).

(** Whichever later step fails once the store is allocated and the
    registration has returned a positive major, the run ends with the
    store freed and the registration, and nothing else, outstanding. *)
Theorem init_late_failure_keeps_registration
        (h : host) (sector_size num_sectors : Z) :
  let r := xiprd_init h sector_size num_sectors in
  let sz := ramdisk_bytes sector_size num_sectors in
  vmalloc h sz <> 0 ->
  0 < register_blkdev h 0 DRV_NAME ->
  ir_rc r <> 0 ->
  ir_rc r = - ENOMEM /\
  In (EvVfree (vmalloc h sz)) (ir_trace r) /\
  outstanding (ir_trace r) = [RDriver (register_blkdev h 0 DRV_NAME)].
Proof.
  intros r sz Hp Hreg Hrc. subst r. revert Hrc.
  unfold xiprd_init. fold sz. cbn [name].
  assert (Hpz : (vmalloc h sz =? 0) = false) by (apply Z.eqb_neq; lia).
  assert (Hrz : (register_blkdev h 0 DRV_NAME <? 0) = false)
    by (apply Z.ltb_ge; lia).
  assert (Hne : (0 =? register_blkdev h 0 DRV_NAME) = false)
    by (apply Z.eqb_neq; lia).
  rewrite Hpz, Hrz.
  destruct (alloc_disk h NUM_MINORS); cbn [negb].
  - destruct (Z.eqb_spec (blk_alloc_queue h) 0) as [Hq | Hq].
    + intros _. unfold err_out.
      cbn [ramdisk disk ir_rc ir_trace gd_queue major name].
      rewrite Hpz, Hq.
      split; [ reflexivity | split ].
      * cbn. intuition.
      * unfold outstanding, audit. cbn [app].
        do 9 ledger_step. reflexivity.
    + cbn [ir_rc]. intros H. now contradiction H.
  - intros _. unfold err_out. cbn [ramdisk disk ir_rc ir_trace major name].
    rewrite Hpz.
    split; [ reflexivity | split ].
    + cbn. intuition.
    + unfold outstanding, audit. cbn [app].
      do 4 ledger_step. reflexivity.
Qed.

Lemma init_late_failure_keeps_registration_witness :
  ir_rc (xiprd_init host_no_queue 512 2048) = - ENOMEM /\
  In (EvVfree 1048576) (ir_trace (xiprd_init host_no_queue 512 2048)) /\
  outstanding (ir_trace (xiprd_init host_no_queue 512 2048)) = [RDriver 254].
Proof.
  apply (init_late_failure_keeps_registration host_no_queue 512 2048).
  - cbn. discriminate.
  - cbn. lia.
  - cbn. discriminate.
Defined.

(** ** Module exit *)

(** The cleanup at [err_out] issues the calls of module exit. *)
Lemma err_out_is_exit (dev : xiprd_dev) (rc : Z) (tr : list event) :
  ir_trace (err_out dev rc tr) = tr ++ xiprd_exit dev.
Proof.
  unfold err_out, xiprd_exit. cbn [ir_trace].
  destruct (ramdisk dev =? 0), (disk dev);
    rewrite ?app_nil_r, <- ?app_assoc; reflexivity.
Qed.

(** Exit after a run that returned 0 releases the store, the published
    disk, the disk and the queue, but unregisters major 0, the value
    [major] has kept since the device was cleared: the registration
    under the positive major the host returned stays outstanding. *)
Theorem exit_after_init_keeps_registration
        (h : host) (sector_size num_sectors : Z) :
  let r := xiprd_init h sector_size num_sectors in
  let tr := ir_trace r ++ xiprd_exit (ir_dev r) in
  ir_rc r = 0 ->
  0 < register_blkdev h 0 DRV_NAME ->
  xiprd_exit (ir_dev r) =
  [EvVfree (ramdisk (ir_dev r)); EvDelGendisk; EvPutDisk;
   EvBlkCleanupQueue (blk_alloc_queue h); EvUnregisterBlkdev 0 DRV_NAME] /\
  outstanding tr = [RDriver (register_blkdev h 0 DRV_NAME)] /\
  stray (audit tr) = [RDriver 0].
Proof.
  intros r tr Hrc Hreg. subst tr r.
  destruct (init_success_trace h sector_size num_sectors Hrc)
    as (Hp & _ & Hq & Htr).
  rewrite Htr. rewrite (init_success _ _ _ Hrc).
  set (sz := ramdisk_bytes sector_size num_sectors) in *.
  assert (Hpz : (vmalloc h sz =? 0) = false) by (apply Z.eqb_neq; lia).
  assert (Hrz : (register_blkdev h 0 DRV_NAME <? 0) = false)
    by (apply Z.ltb_ge; lia).
  assert (Hne : (0 =? register_blkdev h 0 DRV_NAME) = false)
    by (apply Z.eqb_neq; lia).
  assert (Hqz : (blk_alloc_queue h =? 0) = false) by (apply Z.eqb_neq; lia).
  unfold xiprd_exit. cbn [ramdisk disk gd_queue major name].
  rewrite Hpz.
  split; [ reflexivity | ].
  unfold outstanding, audit. cbn [app].
  do 14 ledger_step. split; reflexivity.
Qed.

Lemma exit_after_init_keeps_registration_witness :
  xiprd_exit (ir_dev (xiprd_init host_ok 512 2048)) =
  [EvVfree (ramdisk (ir_dev (xiprd_init host_ok 512 2048)));
   EvDelGendisk; EvPutDisk; EvBlkCleanupQueue 4096;
   EvUnregisterBlkdev 0 DRV_NAME] /\
  outstanding (ir_trace (xiprd_init host_ok 512 2048) ++
               xiprd_exit (ir_dev (xiprd_init host_ok 512 2048))) =
  [RDriver 254] /\
  stray (audit (ir_trace (xiprd_init host_ok 512 2048) ++
                xiprd_exit (ir_dev (xiprd_init host_ok 512 2048)))) =
  [RDriver 0].
Proof.
  apply (exit_after_init_keeps_registration host_ok 512 2048).
  - reflexivity.
  - cbn. lia.
Defined.

(** ** The copies of a request *)

Lemma loop_copies (dir : data_dir) (base : Z) (segs : list bio_vec) :
  forall st,
    ss_copies (bio_for_each_segment dir base segs st) =
    ss_copies st ++ segment_copies dir (ss_offset st) segs.
Proof.
  induction segs as [| bv rest IH]; intros st.
  - simpl. now rewrite app_nil_r.
  - rewrite loop_cons, IH. simpl. now rewrite <- app_assoc.
Qed.

Lemma segment_copies_chain (dir : data_dir) (segs : list bio_vec) :
  forall off k c1 c2,
    nth_error (segment_copies dir off segs) k = Some c1 ->
    nth_error (segment_copies dir off segs) (S k) = Some c2 ->
    cp_offset c2 = CInt.s64 (cp_offset c1 + Z.of_N (cp_len c1)).
Proof.
  induction segs as [| bv rest IH]; intros off k c1 c2 H1 H2.
  - destruct k; discriminate.
  - destruct k as [| k].
    + cbn in H1. injection H1 as <-. cbn [segment_copies nth_error] in H2.
      destruct rest as [| bv' rest']; [ discriminate | ].
      cbn in H2. injection H2 as <-. reflexivity.
    + cbn [segment_copies nth_error] in H1, H2. eapply IH; eassumption.
Qed.

Lemma segment_copies_fields (dir : data_dir) (segs : list bio_vec) :
  forall off,
    map cp_buf (segment_copies dir off segs) =
    map (fun bv => kmap_atomic (bv_page bv)) segs /\
    map cp_len (segment_copies dir off segs) = map bv_len segs /\
    Forall (fun cp => cp_dir cp = dir) (segment_copies dir off segs).
Proof.
  induction segs as [| bv rest IH]; intros off.
  - repeat split. constructor.
  - destruct (IH (CInt.s64 (off + Z.of_N (bv_len bv)))) as (Hb & Hl & Hd).
    cbn [segment_copies map cp_buf cp_len]. rewrite Hb, Hl.
    repeat split. constructor; trivial.
Qed.

(** The handler issues one copy per segment, in segment order, in the
    direction of the request, on the page and for the length of the
    segment; the first copy is at the offset of the request and each
    later one at the [loff_t] sum of its predecessor's offset and
    length, so the device-side range is contiguous. *)
Theorem copies_follow_segments (dev : xiprd_dev) (bi : bio) (m : mem) :
  let cs := mr_copies (xiprd_make_request dev bi m) in
  map cp_buf cs = map (fun bv => kmap_atomic (bv_page bv)) (bi_io_vec bi) /\
  map cp_len cs = map bv_len (bi_io_vec bi) /\
  Forall (fun cp => cp_dir cp = bio_data_dir bi) cs /\
  option_map cp_offset (nth_error cs 0) =
  option_map (fun _ => bio_offset bi) (nth_error (bi_io_vec bi) 0) /\
  forall k c1 c2,
    nth_error cs k = Some c1 -> nth_error cs (S k) = Some c2 ->
    cp_offset c2 = CInt.s64 (cp_offset c1 + Z.of_N (cp_len c1)).
Proof.
  intros cs. subst cs. unfold xiprd_make_request. cbn [mr_copies].
  rewrite loop_copies. cbn [ss_copies ss_offset app].
  destruct (segment_copies_fields (bio_data_dir bi) (bi_io_vec bi)
                                  (bio_offset bi)) as (Hb & Hl & Hd).
  repeat split; trivial.
  - destruct (bi_io_vec bi); reflexivity.
  - apply segment_copies_chain.
Qed.

(** ** Reads *)

(** A read copies the bytes found from [ramdisk + offset] on, for the
    total length, to the start of the page of each segment, in segment
    order and whatever the [bv_offset] of the segment; for segments with
    [bv_offset] 0 these bytes become the data of the segments.  No bound
    of the device enters, so a range past [size] yields the memory that
    follows the RAM disk. *)
Theorem read_copies_whole_range (dev : xiprd_dev) (bi : bio) (m : mem) :
  bio_data_dir bi = READ ->
  bio_offset bi + bio_len bi < 2 ^ 63 ->
  Forall (buf_outside (ramdisk dev + bio_offset bi)
                      (ramdisk dev + bio_offset bi + bio_len bi))
         (bi_io_vec bi) ->
  pairwise_apart (bi_io_vec bi) ->
  let c := xiprd_make_request dev bi m in
  pages_head (mr_mem c) (bi_io_vec bi) =
  load m (ramdisk dev + bio_offset bi) (Z.to_nat (bio_len bi)) /\
  (Forall (fun bv => bv_offset bv = 0%N) (bi_io_vec bi) ->
   segs_data (mr_mem c) (bi_io_vec bi) =
   load m (ramdisk dev + bio_offset bi) (Z.to_nat (bio_len bi))).
Proof.
  intros Hr Hhi Hout Hapart c.
  assert (Hpages : pages_head (mr_mem c) (bi_io_vec bi) =
                   load m (ramdisk dev + bio_offset bi)
                        (Z.to_nat (bio_len bi))).
  { subst c. unfold xiprd_make_request. rewrite Hr. cbn [mr_mem].
    change (bio_offset bi)
      with (ss_offset (mk_seg_state (bio_offset bi) m [])) at 2.
    apply read_content; cbn [ss_offset]; trivial.
    apply s64_range. }
  split; [ exact Hpages | ].
  intros H0. now rewrite segs_data_offset0.
Qed.

Lemma read_copies_whole_range_witness :
  size dev_1KiB = 1024 /\
  segs_data (mr_mem (xiprd_make_request dev_1KiB bio_read_sector1 mem_ab))
            (bi_io_vec bio_read_sector1) =
  load mem_ab (ramdisk dev_1KiB + 512) 1024.
Proof.
  split; [ reflexivity | ].
  apply (read_copies_whole_range dev_1KiB bio_read_sector1 mem_ab).
  - reflexivity.
  - reflexivity.
  - repeat constructor. unfold buf_outside. cbn. lia.
  - cbn. auto.
  - repeat constructor.
Defined.

(** ** Writes *)

(** A write whose range fits [loff_t] changes no byte outside the
    destination range: the segment buffers that lie outside it hold
    afterwards what they held before, be it the addressed start of each
    page or the data of the segments at their [bv_offset]. *)
Theorem write_keeps_buffers (dev : xiprd_dev) (bi : bio) (m : mem) :
  bio_data_dir bi = WRITE ->
  bio_offset bi + bio_len bi < 2 ^ 63 ->
  Forall (buf_outside (ramdisk dev + bio_offset bi)
                      (ramdisk dev + bio_offset bi + bio_len bi))
         (bi_io_vec bi) ->
  let c := xiprd_make_request dev bi m in
  (forall a,
     a < ramdisk dev + bio_offset bi \/
     ramdisk dev + bio_offset bi + bio_len bi <= a ->
     mr_mem c a = m a) /\
  pages_head (mr_mem c) (bi_io_vec bi) = pages_head m (bi_io_vec bi) /\
  (Forall (data_outside (ramdisk dev + bio_offset bi)
                        (ramdisk dev + bio_offset bi + bio_len bi))
          (bi_io_vec bi) ->
   segs_data (mr_mem c) (bi_io_vec bi) = segs_data m (bi_io_vec bi)).
Proof.
  intros Hw Hhi Hout c.
  assert (Hframe : forall a,
             a < ramdisk dev + bio_offset bi \/
             ramdisk dev + bio_offset bi + bio_len bi <= a ->
             mr_mem c a = m a).
  { intros a Ha. subst c. unfold xiprd_make_request. rewrite Hw.
    cbn [mr_mem]. rewrite write_untouched; cbn [ss_offset ss_mem]; trivial.
    - apply s64_range.
    - unfold bio_len in Ha. lia. }
  split; [ exact Hframe | split ].
  - apply pages_head_ext.
    eapply Forall_impl; [ | exact Hout ].
    intros bv Hbv i Hi. apply Hframe. unfold buf_outside in Hbv. lia.
  - intros Hdata. apply segs_data_ext.
    eapply Forall_impl; [ | exact Hdata ].
    intros bv Hbv i Hi. apply Hframe. unfold data_outside in Hbv. lia.
Qed.

Lemma write_keeps_buffers_witness :
  segs_data (mr_mem (xiprd_make_request dev_1MiB bio_write_offset512
                                        mem_ab_512))
            (bi_io_vec bio_write_offset512) =
  segs_data mem_ab_512 (bi_io_vec bio_write_offset512).
Proof.
  assert (Hout : Forall (buf_outside
                           (ramdisk dev_1MiB + bio_offset bio_write_offset512)
                           (ramdisk dev_1MiB + bio_offset bio_write_offset512
                            + bio_len bio_write_offset512))
                        (bi_io_vec bio_write_offset512))
    by (repeat constructor; unfold buf_outside; cbn; lia).
  destruct (write_keeps_buffers dev_1MiB bio_write_offset512 mem_ab_512
              eq_refl eq_refl Hout) as (_ & _ & Hdata).
  apply Hdata. repeat constructor. unfold data_outside, seg_buf. cbn. lia.
Defined.

(** A later write to a disjoint byte range leaves in place what an
    earlier write stored: after both, the first range still holds the
    bytes the first request was served from, the first [bv_len] bytes of
    the page of each of its segments, which are the data of the request
    when its segments have [bv_offset] 0. *)
Theorem disjoint_write_keeps_data (dev : xiprd_dev) (w1 w2 : bio) (m : mem) :
  bio_data_dir w1 = WRITE ->
  bio_data_dir w2 = WRITE ->
  bio_offset w1 + bio_len w1 < 2 ^ 63 ->
  bio_offset w2 + bio_len w2 < 2 ^ 63 ->
  Forall (buf_outside (ramdisk dev + bio_offset w1)
                      (ramdisk dev + bio_offset w1 + bio_len w1))
         (bi_io_vec w1) ->
  bio_offset w1 + bio_len w1 <= bio_offset w2 \/
  bio_offset w2 + bio_len w2 <= bio_offset w1 ->
  let m1 := mr_mem (xiprd_make_request dev w1 m) in
  let m2 := mr_mem (xiprd_make_request dev w2 m1) in
  load m2 (ramdisk dev + bio_offset w1) (Z.to_nat (bio_len w1)) =
  pages_head m (bi_io_vec w1) /\
  (Forall (fun bv => bv_offset bv = 0%N) (bi_io_vec w1) ->
   load m2 (ramdisk dev + bio_offset w1) (Z.to_nat (bio_len w1)) =
   segs_data m (bi_io_vec w1)).
Proof.
  intros Hw1 Hw2 Hhi1 Hhi2 Hout Hdisj m1 m2.
  pose proof (segs_len_nonneg (bi_io_vec w1)) as Hnn. fold (bio_len w1) in Hnn.
  assert (Hpages : load m2 (ramdisk dev + bio_offset w1)
                        (Z.to_nat (bio_len w1)) =
                   pages_head m (bi_io_vec w1)).
  { transitivity
      (load m1 (ramdisk dev + bio_offset w1) (Z.to_nat (bio_len w1))).
    - apply load_ext. intros i Hi. subst m2.
      unfold xiprd_make_request. rewrite Hw2. cbn [mr_mem].
      rewrite write_untouched; cbn [ss_offset ss_mem]; trivial.
      + apply s64_range.
      + unfold bio_len in *. lia.
    - subst m1. unfold xiprd_make_request. rewrite Hw1. cbn [mr_mem].
      change (bio_offset w1)
        with (ss_offset (mk_seg_state (bio_offset w1) m [])) at 2.
      apply write_content; cbn [ss_offset]; trivial.
      apply s64_range. }
  split; [ exact Hpages | ].
  intros H0. now rewrite segs_data_offset0.
Qed.

Lemma disjoint_write_keeps_data_witness :
  load (mr_mem (xiprd_make_request dev_1MiB bio_write_512_sector1
                  (mr_mem (xiprd_make_request dev_1MiB bio_write_sector0
                                              mem_ab))))
       (ramdisk dev_1MiB + bio_offset bio_write_sector0)
       (Z.to_nat (bio_len bio_write_sector0)) =
  segs_data mem_ab (bi_io_vec bio_write_sector0).
Proof.
  apply (disjoint_write_keeps_data dev_1MiB bio_write_sector0
           bio_write_512_sector1 mem_ab).
  - reflexivity.
  - reflexivity.
  - reflexivity.
  - reflexivity.
  - repeat constructor. unfold buf_outside. cbn. lia.
  - left. cbn. lia.
  - repeat constructor.
Defined.

(** ** Splitting a request *)

Lemma u64_idem (x : Z) : CInt.u64 (CInt.u64 x) = CInt.u64 x.
Proof. unfold CInt.u64, CInt.wrap. apply Z.mod_mod. discriminate. Qed.

Lemma s64_u64 (x : Z) : CInt.s64 (CInt.u64 x) = CInt.s64 x.
Proof. apply s64_congr. apply u64_idem. Qed.

Lemma bio_offset_advance (sector k : Z) (dir : data_dir)
      (segs segs' : list bio_vec) :
  bio_offset (mk_bio (sector + k) dir segs') =
  CInt.s64 (bio_offset (mk_bio sector dir segs) + k * 512).
Proof.
  unfold bio_offset, CInt.shl64, KERNEL_SHIFT. cbn [bi_sector].
  rewrite !Z.shiftl_mul_pow2 by lia. change (2 ^ 9) with 512.
  rewrite s64_add_l, !s64_u64. apply s64_congr.
  unfold CInt.u64, CInt.wrap.
  rewrite Zplus_mod_idemp_l. f_equal. lia.
Qed.

(** A request cut at a multiple of 512 bytes is two requests: serving
    the segments up to the cut and then the remaining ones as a request
    of their own, k sectors further, leaves the same memory as serving
    them all at once. *)
Theorem split_at_sector_boundary
        (dev : xiprd_dev) (dir : data_dir) (sector k : Z)
        (s1 s2 : list bio_vec) (m : mem) :
  segs_len s1 = k * 512 ->
  forall a,
    mr_mem (xiprd_make_request dev (mk_bio sector dir (s1 ++ s2)) m) a =
    mr_mem (xiprd_make_request dev (mk_bio (sector + k) dir s2)
              (mr_mem (xiprd_make_request dev (mk_bio sector dir s1) m))) a.
Proof.
  intros Hlen a. unfold xiprd_make_request.
  cbn [mr_mem bi_io_vec bio_data_dir bi_rw].
  rewrite loop_app. apply loop_mem_ext; [ | reflexivity ].
  cbn [ss_offset].
  rewrite (bio_offset_advance sector k dir (s1 ++ s2) s2).
  rewrite <- Hlen.
  rewrite (loop_offset (ramdisk dev) dir s1 _
             (bio_offset (mk_bio sector dir (s1 ++ s2)))).
  - reflexivity.
  - cbn [ss_offset]. symmetry. apply s64_idem.
Qed.

Lemma split_at_sector_boundary_witness :
  mr_mem (xiprd_make_request dev_8MiB bio_write_two_segments mem_ab_cd)
         (ramdisk dev_8MiB + 4096) =
  mr_mem (xiprd_make_request dev_8MiB
            (mk_bio (0 + 8) WRITE [mk_bio_vec 12288 4096 0])
            (mr_mem (xiprd_make_request dev_8MiB
                       (mk_bio 0 WRITE [mk_bio_vec 8192 4096 0]) mem_ab_cd)))
         (ramdisk dev_8MiB + 4096).
Proof.
  apply (split_at_sector_boundary dev_8MiB WRITE 0 8
           [mk_bio_vec 8192 4096 0] [mk_bio_vec 12288 4096 0] mem_ab_cd).
  reflexivity.
Defined.

(** ** Capacity and the store *)

(** The byte size of the device is the product of the two parameters
    modulo 2^64, for every run and every sign of [sector_size]; a
    product of 2^64 or more is cut down silently. *)
Theorem init_size_wraps (h : host) (sector_size num_sectors : Z) :
  size (ir_dev (xiprd_init h sector_size num_sectors)) =
  (sector_size * num_sectors) mod 2 ^ 64.
Proof.
  assert (Hsz : ramdisk_bytes sector_size num_sectors =
                (sector_size * num_sectors) mod 2 ^ 64).
  { unfold ramdisk_bytes, CInt.u64, CInt.wrap.
    rewrite <- Z.mul_mod by discriminate. f_equal. apply Z.mul_comm. }
  unfold xiprd_init. cbn [name].
  destruct (vmalloc h _ =? 0); [ exact Hsz | ].
  destruct (_ <? 0); [ exact Hsz | ].
  destruct (negb _); [ exact Hsz | ].
  destruct (_ =? 0); exact Hsz.
Qed.

(** The capacity announced to the block layer, in 512-byte sectors, is
    the byte size rounded down: it never covers more than the store, and
    falls short of it by less than one sector. *)
Theorem init_capacity_within_store (h : host) (sector_size num_sectors : Z) :
  let r := xiprd_init h sector_size num_sectors in
  ir_rc r = 0 ->
  exists gd,
    disk (ir_dev r) = Some gd /\
    In (EvSetCapacity (get_capacity gd)) (ir_trace r) /\
    get_capacity gd * 512 <= size (ir_dev r) < get_capacity gd * 512 + 512.
Proof.
  intros r Hrc. subst r.
  destruct (init_success_trace h sector_size num_sectors Hrc)
    as (_ & _ & _ & Htr).
  rewrite Htr, (init_success _ _ _ Hrc). cbn [disk size].
  eexists. split; [ reflexivity | ]. cbn [get_capacity gd_capacity]. split.
  - cbn. intuition.
  - set (sz := ramdisk_bytes sector_size num_sectors).
    pose proof (Z.div_mod sz 512 ltac:(lia)) as Hdm.
    pose proof (Z.mod_pos_bound sz 512 ltac:(lia)) as Hmod.
    lia.
Qed.

Lemma init_capacity_within_store_witness :
  exists gd,
    disk (ir_dev (xiprd_init host_ok 100 11)) = Some gd /\
    In (EvSetCapacity (get_capacity gd))
       (ir_trace (xiprd_init host_ok 100 11)) /\
    get_capacity gd * 512 <= size (ir_dev (xiprd_init host_ok 100 11))
      < get_capacity gd * 512 + 512.
Proof.
  apply (init_capacity_within_store host_ok 100 11). reflexivity.
Defined.

(** A write that lies within the announced capacity touches no memory
    outside the RAM disk. *)
Theorem write_within_capacity_stays_in_store
        (h : host) (sector_size num_sectors : Z) (bi : bio) (m : mem)
        (a : Z) :
  let r := xiprd_init h sector_size num_sectors in
  let dev := ir_dev r in
  ir_rc r = 0 ->
  size dev < 2 ^ 63 ->
  bio_data_dir bi = WRITE ->
  0 <= bi_sector bi ->
  match disk dev with
  | Some gd => bi_sector bi * 512 + bio_len bi <= get_capacity gd * 512
  | None => False
  end ->
  a < ramdisk dev \/ ramdisk dev + size dev <= a ->
  mr_mem (xiprd_make_request dev bi m) a = m a.
Proof.
  intros r dev Hrc Hsz Hw Hs Hcap Ha. subst dev r.
  rewrite (init_success _ _ _ Hrc) in *.
  cbn [disk size ramdisk get_capacity gd_capacity] in *.
  set (sz := ramdisk_bytes sector_size num_sectors) in *.
  set (dev := mk_dev _ _ _ _ _ _ _).
  pose proof (Z.div_mod sz 512 ltac:(lia)) as Hdm.
  pose proof (Z.mod_pos_bound sz 512 ltac:(lia)) as Hmod.
  pose proof (segs_len_nonneg (bi_io_vec bi)) as Hnn. fold (bio_len bi) in Hnn.
  assert (Hoff : bio_offset bi = bi_sector bi * 512).
  { apply bio_offset_sector. change (2 ^ 54) with 18014398509481984.
    rewrite pow2_63 in Hsz. lia. }
  unfold xiprd_make_request. rewrite Hw. cbn [mr_mem].
  rewrite write_untouched; cbn [ss_offset ss_mem]; trivial.
  - apply s64_range.
  - rewrite Hoff. fold (bio_len bi). lia.
  - rewrite Hoff. fold (bio_len bi). subst dev. cbn [ramdisk]. lia.
Qed.

Lemma write_within_capacity_stays_in_store_witness :
  mr_mem (xiprd_make_request (ir_dev (xiprd_init host_ok 512 2048))
                             bio_write_512_sector1 mem_ab) 2097152 =
  mem_ab 2097152.
Proof.
  apply (write_within_capacity_stays_in_store host_ok 512 2048
           bio_write_512_sector1 mem_ab 2097152).
  - reflexivity.
  - reflexivity.
  - reflexivity.
  - cbn. lia.
  - cbn. lia.
  - right. cbn. lia.
Defined.

(** ** Geometry against the capacity *)

(** The geometry never addresses more sectors than the disk has, and
    addresses exactly the capacity if and only if the capacity is a
    multiple of 2048 sectors below 2^27. *)
Theorem geometry_within_capacity (gd : gendisk) :
  0 <= get_capacity gd < 2 ^ 64 ->
  let g := snd (xiprd_getgeo gd) in
  0 <= chs_sectors g <= get_capacity gd /\
  (chs_sectors g = get_capacity gd <->
   get_capacity gd mod 2048 = 0 /\ get_capacity gd < 2 ^ 27).
Proof.
  intros H g. subst g. rewrite getgeo_value by assumption.
  unfold chs_sectors. cbn [snd heads sectors cylinders].
  set (c := get_capacity gd) in *.
  pose proof (Z.div_mod c 2048 ltac:(lia)) as Hdm.
  pose proof (Z.mod_pos_bound c 2048 ltac:(lia)) as Hmod.
  pose proof (Z.mod_pos_bound (c / 2048) 65536 ltac:(lia)) as Hcyl.
  assert (Hq : 0 <= c / 2048) by (apply Z.div_pos; lia).
  assert (Hle : (c / 2048) mod 65536 <= c / 2048)
    by (apply Z.mod_le; lia).
  change (2 ^ 27) with 134217728.
  split; [ lia | split ].
  - intros Heq. lia.
  - intros [Hm Hlt].
    rewrite cylinders_small by (change (2 ^ 27) with 134217728; lia). lia.
Qed.

Lemma geometry_within_capacity_witness :
  (0 <= chs_sectors (snd (xiprd_getgeo gd_big)) <= get_capacity gd_big) /\
  chs_sectors (snd (xiprd_getgeo gd_2MiB)) = get_capacity gd_2MiB.
Proof.
  split.
  - apply (geometry_within_capacity gd_big). cbn. lia.
  - apply (geometry_within_capacity gd_2MiB); cbn; lia.
Defined.

(** ** The cleanup of a failing run *)

Lemma err_out_dev (dev : xiprd_dev) (rc : Z) (tr : list event) :
  ir_dev (err_out dev rc tr) = dev.
Proof. reflexivity. Qed.

(** A failing run is a sequence of acquisition attempts followed by
    exactly the calls module exit would make on the device the run
    leaves behind; the device keeps the pointers that were released. *)
Theorem init_failure_runs_exit (h : host) (sector_size num_sectors : Z) :
  let r := xiprd_init h sector_size num_sectors in
  ir_rc r <> 0 ->
  exists tr,
    ir_trace r = tr ++ xiprd_exit (ir_dev r) /\
    Forall (fun e => is_release e = false) tr.
Proof.
  intros r. subst r. unfold xiprd_init. cbn [name].
  destruct (vmalloc h _ =? 0);
    [ | destruct (_ <? 0);
        [ | destruct (negb _); [ | destruct (_ =? 0) ] ] ];
    intros Hrc;
    try (rewrite err_out_is_exit, err_out_dev; eexists;
         split; [ reflexivity | repeat constructor ]).
  now contradiction Hrc.
Qed.

Lemma init_failure_runs_exit_witness :
  exists tr,
    ir_trace (xiprd_init host_no_queue 512 2048) =
    tr ++ xiprd_exit (ir_dev (xiprd_init host_no_queue 512 2048)) /\
    Forall (fun e => is_release e = false) tr.
Proof.
  apply (init_failure_runs_exit host_no_queue 512 2048). discriminate.
Defined.

(** ** The store after a write *)

(** A write within the device leaves the bytes of the store before and
    after its range as they were and replaces the bytes of the range by
    the first [bv_len] bytes of the page of each segment, in segment
    order: the data of the request when its segments have [bv_offset]
    0. *)
Theorem write_store_bytes (dev : xiprd_dev) (bi : bio) (m : mem) :
  bio_data_dir bi = WRITE ->
  0 <= bi_sector bi ->
  size dev < 2 ^ 63 ->
  bi_sector bi * 512 + bio_len bi <= size dev ->
  Forall (buf_outside (ramdisk dev) (ramdisk dev + size dev)) (bi_io_vec bi) ->
  let off := bi_sector bi * 512 in
  let before := load m (ramdisk dev) (Z.to_nat off) in
  let after :=
    load m (ramdisk dev + off + bio_len bi)
         (Z.to_nat (size dev - off - bio_len bi)) in
  store_bytes dev (mr_mem (xiprd_make_request dev bi m)) =
  before ++ pages_head m (bi_io_vec bi) ++ after /\
  (Forall (fun bv => bv_offset bv = 0%N) (bi_io_vec bi) ->
   store_bytes dev (mr_mem (xiprd_make_request dev bi m)) =
   before ++ segs_data m (bi_io_vec bi) ++ after).
Proof.
  intros Hw Hs Hsz Hin Hout off before after.
  assert (Hpages : store_bytes dev (mr_mem (xiprd_make_request dev bi m)) =
                   before ++ pages_head m (bi_io_vec bi) ++ after).
  { subst before after.
    assert (Hoff : bio_offset bi = off)
      by (apply (in_range_offset dev); assumption).
    pose proof (segs_len_nonneg (bi_io_vec bi)) as Hnn.
    fold (bio_len bi) in Hnn.
    assert (Hlen : bio_len bi <= 2 ^ 63) by lia.
    unfold store_bytes.
    replace (Z.to_nat (size dev))
      with (Z.to_nat off +
            (Z.to_nat (bio_len bi) +
             Z.to_nat (size dev - off - bio_len bi)))%nat
      by lia.
    rewrite !load_app. rewrite !Z2Nat.id by lia. f_equal; [ | f_equal ].
    - apply load_ext. intros i Hi.
      apply write_keeps_rest; trivial; lia.
    - rewrite <- Hoff.
      change (bio_offset bi)
        with (ss_offset (mk_seg_state (bio_offset bi) m [])) at 1.
      unfold xiprd_make_request. rewrite Hw. cbn [mr_mem].
      unfold bio_len. apply write_content; cbn [ss_offset].
      + apply s64_range.
      + fold (bio_len bi). lia.
      + fold (bio_len bi). rewrite Hoff.
        eapply buf_outside_weaken; [ | | exact Hout ]; lia.
    - apply load_ext. intros i Hi.
      replace (ramdisk dev + off + bio_len bi + i)
        with (ramdisk dev + (off + bio_len bi + i)) by lia.
      apply write_keeps_rest; trivial; lia. }
  split; [ exact Hpages | ].
  intros H0. now rewrite segs_data_offset0.
Qed.

Lemma write_store_bytes_witness :
  store_bytes dev_1MiB
    (mr_mem (xiprd_make_request dev_1MiB bio_write_512_sector1 mem_ab)) =
  load mem_ab (ramdisk dev_1MiB) (Z.to_nat (1 * 512)) ++
  segs_data mem_ab (bi_io_vec bio_write_512_sector1) ++
  load mem_ab (ramdisk dev_1MiB + 1 * 512 + bio_len bio_write_512_sector1)
       (Z.to_nat (size dev_1MiB - 1 * 512 - bio_len bio_write_512_sector1)).
Proof.
  apply (write_store_bytes dev_1MiB bio_write_512_sector1 mem_ab).
  - reflexivity.
  - cbn. lia.
  - reflexivity.
  - cbn. lia.
  - repeat constructor. unfold buf_outside. cbn. lia.
  - repeat constructor.
Defined.
